(** * pdf2qa: the chunker and the response parser of [src/utils.py]

    A shallow embedding of [chunk_text] and [parse_qa_response] and the
    properties of the two functions.

    A Python [str] is a sequence of Unicode code points, so a string is a
    list of code points here ([N]); [len] counts code points, as Python
    does.  The integer [max_length] is a [Z]. *)

From Stdlib Require Import Ascii String.
From Stdlib Require Import List NArith ZArith Bool Lia.
From Stdlib Require PrimFloat FloatOps Uint63 DecimalString.
Import ListNotations.

Local Open Scope list_scope.

(** ** Python strings *)

Definition char := N.
Definition str := list char.

(** Turns a literal of ASCII characters into a [str]. *)
Definition py (s : string) : str := map N_of_ascii (list_ascii_of_string s).

Arguments py s%_string.

(** ['\n'], [':'] and [' ']. *)
Definition nl : char := 10%N.
Definition colon : char := 58%N.
Definition space : str := [32%N].

(** [len(s)]. *)
Definition len (s : str) : Z := Z.of_nat (List.length s).

(** Truth value of a [str]: the empty string is false. *)
Definition truthy (s : str) : bool :=
  match s with
  | [] => false
  | _ :: _ => true
  end.

(** Truth value of a variable that holds [None] or a [str]. *)
Definition truthy_opt (o : option str) : bool :=
  match o with
  | None => false
  | Some s => truthy s
  end.

(** [s.split(sep)] for a separator of one character: never returns the
    empty list, and [''.split(sep) == ['']]. *)
Fixpoint split (sep : char) (s : str) : list str :=
  match s with
  | [] => [[]]
  | c :: s' =>
      if N.eqb c sep then [] :: split sep s'
      else match split sep s' with
           | [] => [[c]]
           | p :: ps => (c :: p) :: ps
           end
  end.

(** [s.split(sep, 1)]: at most one cut, at the first [sep]. *)
Fixpoint split1 (sep : char) (s : str) : list str :=
  match s with
  | [] => [[]]
  | c :: s' =>
      if N.eqb c sep then [[]; s']
      else match split1 sep s' with
           | [] => [[c]]
           | p :: ps => (c :: p) :: ps
           end
  end.

(** [sep.join(parts)] for a separator of one character. *)
Fixpoint join (sep : char) (parts : list str) : str :=
  match parts with
  | [] => []
  | [p] => p
  | p :: ps => p ++ sep :: join sep ps
  end.

(** [str.isspace] on one code point: the white space table of CPython
    ([_PyUnicode_IsWhitespace]). *)
Definition is_space (c : char) : bool :=
  ((9 <=? c) && (c <=? 13) || (28 <=? c) && (c <=? 32)
   || (c =? 133) || (c =? 160) || (c =? 5760)
   || (8192 <=? c) && (c <=? 8202)
   || (c =? 8232) || (c =? 8233) || (c =? 8239) || (c =? 8287)
   || (c =? 12288))%N.

(** [s.lstrip()], [s.rstrip()] and [s.strip()]. *)
Fixpoint lstrip (s : str) : str :=
  match s with
  | [] => []
  | c :: s' => if is_space c then lstrip s' else s
  end.

Definition rstrip (s : str) : str := rev (lstrip (rev s)).

Definition strip (s : str) : str := rstrip (lstrip s).

(** [s.startswith(prefix)]. *)
Fixpoint startswith (s prefix : str) {struct prefix} : bool :=
  match prefix, s with
  | [], _ => true
  | _ :: _, [] => false
  | p :: prefix', c :: s' => N.eqb c p && startswith s' prefix'
  end.

(** [s.startswith((p1, ..., pn))]: true when one of the prefixes matches. *)
Definition startswith_any (s : str) (prefixes : list str) : bool :=
  existsb (startswith s) prefixes.

(** ** Outcome of a call

    A call either returns a value or raises.  Neither function of
    [utils.py] contains a [raise], and on a [str] (and an [int]) the
    operations they use ([split], [strip], [startswith], [len], [+], [<=],
    [append], indexing [parts[1]] behind [len(parts) > 1]) cannot raise. *)

Inductive outcome (A : Type) : Type :=
| Returns (value : A)
| Raises (exception : string).

Arguments Returns {A} value.
Arguments Raises {A} exception.

(** ** The chunker: [chunk_text] *)

(** The separator ["\n\n"] appended after every paragraph. *)
Definition separator : str := [nl; nl].

(** The variables of the loop: [chunks] and [current_chunk]. *)
Record chunker : Type := Chunker {
  chunks : list str;
  current_chunk : str
}.

(** The body of [for paragraph in paragraphs]. *)
Definition chunk_step (max_length : Z) (st : chunker) (paragraph : str)
  : chunker :=
  if (len (current_chunk st) + len paragraph <=? max_length)%Z
  then Chunker (chunks st) (current_chunk st ++ paragraph ++ separator)
  else Chunker (chunks st ++ [current_chunk st]) (paragraph ++ separator).

(** The loop, from a given state. *)
Definition chunk_loop (max_length : Z) (paragraphs : list str) (st : chunker)
  : chunker :=
  fold_left (chunk_step max_length) paragraphs st.

(** [if current_chunk: chunks.append(current_chunk)]. *)
Definition chunk_finish (st : chunker) : list str :=
  if truthy (current_chunk st) then chunks st ++ [current_chunk st]
  else chunks st.

Definition chunk_text (text : str) (max_length : Z) : list str :=
  let paragraphs := split nl text in
  chunk_finish (chunk_loop max_length paragraphs (Chunker [] [])).

(** A call of [chunk_text]: the body has no path that raises. *)
Definition chunk_text_call (text : str) (max_length : Z)
  : outcome (list str) :=
  Returns (chunk_text text max_length).

(** ** The response parser: [parse_qa_response] *)

(** ["Réponse"]: the [é] is the code point U+00E9. *)
Definition Reponse : str := py "R" ++ [233%N] ++ py "ponse".

(** The tuple of the first [startswith]. *)
Definition question_markers : list str :=
  [py "Domanda"; py "Question"; py "Frage"; py "Pregunta"; Reponse].

(** The tuple of the second [startswith]. *)
Definition answer_markers : list str :=
  [py "Risposta"; py "Answer"; py "Antwort"; py "Respuesta"; Reponse].

(** The dictionary [{"question": ..., "answer": ...}]. *)
Record QAPair : Type := Pair {
  question : str;
  answer : str
}.

(** The variables of the loop. *)
Record parser : Type := Parser {
  qa_pairs : list QAPair;
  current_question : option str;
  current_answer : str;
  expecting_question : bool;
  expecting_answer : bool
}.

(** [qa_pairs.append({"question": current_question,
    "answer": current_answer.strip()})]; every use is guarded by
    [if current_question], so the question is a [str] there. *)
Definition append_pair (st : parser) : list QAPair :=
  match current_question st with
  | Some q => qa_pairs st ++ [Pair q (strip (current_answer st))]
  | None => qa_pairs st
  end.

(** [parts = line.split(":", 1)], then [parts[1].strip()] when
    [len(parts) > 1 and parts[1].strip()]. *)
Definition inline_text (line : str) : option str :=
  let parts := split1 colon line in
  if (1 <? List.length parts)%nat && truthy (strip (nth 1 parts []))
  then Some (strip (nth 1 parts []))
  else None.

(** Lines 70-84: the line starts with a question marker. *)
Definition on_question_marker (st : parser) (line : str) : parser :=
  let pairs :=
    if truthy_opt (current_question st) then append_pair st
    else qa_pairs st in
  match inline_text line with
  | Some q => Parser pairs (Some q) [] false (expecting_answer st)
  | None => Parser pairs None [] true (expecting_answer st)
  end.

(** Lines 87-90: the line is the question that was waited for. *)
Definition on_question_text (st : parser) (line : str) : parser :=
  Parser (qa_pairs st) (Some line) (current_answer st) false
         (expecting_answer st).

(** Lines 93-107: the line starts with an answer marker. *)
Definition on_answer_marker (st : parser) (line : str) : parser :=
  let pairs :=
    if truthy_opt (current_question st) && truthy (current_answer st)
    then append_pair st
    else qa_pairs st in
  match inline_text line with
  | Some a =>
      Parser pairs (current_question st) a (expecting_question st) false
  | None =>
      Parser pairs (current_question st) [] (expecting_question st) true
  end.

(** Lines 110-113: the line is the answer that was waited for. *)
Definition on_answer_text (st : parser) (line : str) : parser :=
  Parser (qa_pairs st) (current_question st) line (expecting_question st)
         false.

(** Lines 116-119: any other line goes to the current answer. *)
Definition on_continuation (st : parser) (line : str) : parser :=
  if truthy (current_answer st) then
    Parser (qa_pairs st) (current_question st)
           (current_answer st ++ space ++ line)
           (expecting_question st) (expecting_answer st)
  else if truthy_opt (current_question st) then
    Parser (qa_pairs st) (current_question st) line
           (expecting_question st) (expecting_answer st)
  else st.

(** The body of [for line in lines]: the tests in the order of the
    source, each branch ending in [continue]. *)
Definition step (st : parser) (raw : str) : parser :=
  let line := strip raw in
  if negb (truthy line) then st
  else if startswith_any line question_markers then on_question_marker st line
  else if expecting_question st then on_question_text st line
  else if startswith_any line answer_markers then on_answer_marker st line
  else if expecting_answer st then on_answer_text st line
  else on_continuation st line.

(** Which branch of the loop body a line takes. *)
Inductive branch : Type :=
| Blank
| QuestionMarker
| QuestionText
| AnswerMarker
| AnswerText
| Continuation.

Definition branch_of (st : parser) (raw : str) : branch :=
  let line := strip raw in
  if negb (truthy line) then Blank
  else if startswith_any line question_markers then QuestionMarker
  else if expecting_question st then QuestionText
  else if startswith_any line answer_markers then AnswerMarker
  else if expecting_answer st then AnswerText
  else Continuation.

(** What a branch does to the state. *)
Definition run_branch (b : branch) (st : parser) (line : str) : parser :=
  match b with
  | Blank => st
  | QuestionMarker => on_question_marker st line
  | QuestionText => on_question_text st line
  | AnswerMarker => on_answer_marker st line
  | AnswerText => on_answer_text st line
  | Continuation => on_continuation st line
  end.

(** The state before the first line. *)
Definition initial : parser := Parser [] None [] false false.

(** The loop, from a given state. *)
Definition parse_loop (lines : list str) (st : parser) : parser :=
  fold_left step lines st.

(** Lines 122-123: the last pair. *)
Definition parse_finish (st : parser) : list QAPair :=
  if truthy_opt (current_question st) then append_pair st else qa_pairs st.

(** The parser on the lines of the response. *)
Definition parse_lines (lines : list str) : list QAPair :=
  parse_finish (parse_loop lines initial).

Definition parse_qa_response (response_text : str) : list QAPair :=
  parse_lines (split nl response_text).

(** A call of [parse_qa_response]: the body has no path that raises. *)
Definition parse_qa_response_call (response_text : str)
  : outcome (list QAPair) :=
  Returns (parse_qa_response response_text).

(** ** Notions used to state the properties *)

(** A paragraph as it is stored in a chunk: followed by the separator. *)
Definition pad (paragraph : str) : str := paragraph ++ separator.

(** The bound on a chunk: at most [max_length] characters, or one single
    paragraph (with its separator) that is itself longer than
    [max_length]. *)
Definition bounded_chunk (max_length : Z) (paragraphs : list str)
  (chunk : str) : Prop :=
  (len chunk <= max_length)%Z
  \/ exists p, In p paragraphs /\ chunk = pad p /\ (max_length < len p)%Z.

(** The same bound with room for the separator that ends the chunk. *)
Definition padded_bounded_chunk (max_length : Z) (paragraphs : list str)
  (chunk : str) : Prop :=
  (len chunk <= max_length + len separator)%Z
  \/ exists p, In p paragraphs /\ chunk = pad p /\ (max_length < len p)%Z.

(** [s.split(sep)] for a separator of several characters: the text is
    read from the left, [skip] counts the characters of a separator that
    was just recognised and [cur] holds the piece being read, reversed. *)
Fixpoint split_str_from (sep s : str) (skip : nat) (cur : str) : list str :=
  match s with
  | [] => [rev cur]
  | c :: s' =>
      match skip with
      | S k => split_str_from sep s' k cur
      | O =>
          if startswith s sep
          then rev cur :: split_str_from sep s' (List.length sep - 1) []
          else split_str_from sep s' 0 (c :: cur)
      end
  end.

Definition split_str (sep s : str) : list str := split_str_from sep s 0 [].

(** The paragraphs read back from a sequence of chunks: the chunks are
    concatenated and cut at the separators; the piece after the last
    separator is empty and is dropped. *)
Definition paragraphs_of (chunks : list str) : list str :=
  removelast (split_str separator (concat chunks)).

(** No white space at either end. *)
Definition trimmed (s : str) : Prop :=
  forall c, hd_error s = Some c \/ hd_error (rev s) = Some c ->
            is_space c = false.

(** The state of the parser when the input [response_text] ends. *)
Definition final_state (response_text : str) : parser :=
  parse_loop (split nl response_text) initial.

(** A line that starts with a question marker. *)
Definition is_question_line (raw : str) : bool :=
  startswith_any (strip raw) question_markers.

(** A line that starts with an answer marker. *)
Definition is_answer_line (raw : str) : bool :=
  startswith_any (strip raw) answer_markers.

(** A line that the parser takes as an answer marker, with text after
    its colon. *)
Definition is_inline_answer (raw : str) : bool :=
  negb (is_question_line raw) && is_answer_line raw
  && match inline_text (strip raw) with Some _ => true | None => false end.

(** The text after the colon of a marker line (the empty string when
    there is none). *)
Definition text_of (raw : str) : str :=
  match inline_text (strip raw) with
  | Some t => t
  | None => []
  end.

(** [sub] is [l] with some elements left out, the order kept. *)
Inductive subsequence {A : Type} : list A -> list A -> Prop :=
| subsequence_nil : subsequence [] []
| subsequence_skip x sub l : subsequence sub l -> subsequence sub (x :: l)
| subsequence_keep x sub l :
    subsequence sub l -> subsequence (x :: sub) (x :: l).

(** A call that raises. *)
Definition raises {A : Type} (o : outcome A) : Prop :=
  exists e, o = Raises e.

(** One paragraph of 3999 letters [a]. *)
Definition long_paragraph : str := repeat 97%N 3999.

(** The parser has seen no question marker yet. *)
Definition idle (st : parser) : Prop :=
  qa_pairs st = [] /\ current_question st = None
  /\ expecting_question st = false.

(** A pair with a question that is not empty and with both fields free of
    white space at their ends. *)
Definition well_formed (p : QAPair) : Prop :=
  question p <> [] /\ trimmed (question p) /\ trimmed (answer p).

(** What holds of the variables of the parser after every line. *)
Definition parser_inv (st : parser) : Prop :=
  Forall well_formed (qa_pairs st)
  /\ forall q, current_question st = Some q -> q <> [] /\ trimmed q.

(** The response with a question and no answer. *)
Definition question_only : str :=
  py "Question 1: Q only, no answer marker ever appears".

(** The pair [p] is the pair of the answer line [a] under the question
    [q]: its question is [q] and its answer starts with the text after the
    colon of [a]. *)
Definition answers_pair (q : str) (a : str) (p : QAPair) : Prop :=
  question p = q /\ exists rest, answer p = text_of a ++ rest.

(** Every answer line of [seen] has its pair in [pairs], in order. *)
Definition flushed (q : str) (seen : list str) (pairs : list QAPair) : Prop :=
  exists sub, subsequence sub pairs /\ Forall2 (answers_pair q) seen sub.

(** The parser is under the question [q] and has read the answer lines
    [seen]: all of them have their pair, or all but the last one, whose
    text is at the start of [current_answer]. *)
Definition track (q : str) (seen : list str) (st : parser) : Prop :=
  current_question st = Some q
  /\ expecting_question st = false
  /\ (flushed q seen (qa_pairs st)
      \/ exists seen' a t cont,
           seen = seen' ++ [a]
           /\ flushed q seen' (qa_pairs st)
           /\ inline_text (strip a) = Some t
           /\ current_answer st = t ++ cont
           /\ expecting_answer st = false).

(** A response with two answers under one question. *)
Definition two_answers : list str :=
  [py "Answer 1: first"; py "Answer 2: second"].

Definition one_question_two_answers : str :=
  join nl (py "Question 1: Q" :: two_answers).

(** ** Notions used for the further properties of the chunker *)

(** The chunk made of the paragraphs of [group]: each one followed by the
    separator. *)
Definition group_chunk (group : list str) : str := concat (map pad group).

(** The loop and the final test of [chunk_text] without the variable
    [chunks]: the chunks that the buffer [cur] and the paragraphs still to
    read give. *)
Fixpoint chunks_from (max_length : Z) (cur : str) (paragraphs : list str)
  : list str :=
  match paragraphs with
  | [] => if truthy cur then [cur] else []
  | p :: ps =>
      if (len cur + len p <=? max_length)%Z
      then chunks_from max_length (cur ++ p ++ separator) ps
      else cur :: chunks_from max_length (p ++ separator) ps
  end.

(** The same on the paragraphs themselves: [group] holds the paragraphs
    of the buffer. *)
Fixpoint groups_from (max_length : Z) (group : list str)
  (paragraphs : list str) : list (list str) :=
  match paragraphs with
  | [] => match group with [] => [] | _ :: _ => [group] end
  | p :: ps =>
      if (len (group_chunk group) + len p <=? max_length)%Z
      then groups_from max_length (group ++ [p]) ps
      else group :: groups_from max_length [p] ps
  end.

(** Every group is closed for a reason: the first paragraph of the next
    group did not fit after it. *)
Fixpoint closed_when_full (max_length : Z) (groups : list (list str))
  : Prop :=
  match groups with
  | [] => True
  | g :: rest =>
      match rest with
      | (p :: _) :: _ => (max_length < len (group_chunk g) + len p)%Z
      | _ => True
      end
      /\ closed_when_full max_length rest
  end.

(** ** Notions used for the further properties of the parser *)

(** The lines that count for the parser: trimmed, the blank ones left
    out. *)
Definition significant_lines (response_text : str) : list str :=
  filter truthy (map strip (split nl response_text)).

(** [s.replace(c, '')] for a pattern [c] of one character. *)
Definition remove_char (c : char) (s : str) : str :=
  filter (fun d => negb (N.eqb d c)) s.

(** ['*']. *)
Definition star : char := 42%N.

(** Lines 108-109 of [gemini_processor.py]:
    [qa_text = response.text.replace('*', '')] and
    [qa_section = parse_qa_response(qa_text)], on the text of the
    response. *)
Definition qa_section (response_text : str) : list QAPair :=
  let qa_text := remove_char star response_text in
  parse_qa_response qa_text.

(** The characters of the variables of the parser: [P] holds of those of
    the questions, [Q] of those of the answers. *)
Definition chars_inv (P Q : char -> Prop) (st : parser) : Prop :=
  Forall (fun p => Forall P (question p) /\ Forall Q (answer p))
         (qa_pairs st)
  /\ (forall q, current_question st = Some q -> Forall P q)
  /\ Forall Q (current_answer st).

(** Two states that differ at most in [expecting_answer], and then only
    while the answer is still empty and a question is set or waited for. *)
Definition same_but_waiting (st st' : parser) : Prop :=
  qa_pairs st = qa_pairs st'
  /\ current_question st = current_question st'
  /\ current_answer st = current_answer st'
  /\ expecting_question st = expecting_question st'
  /\ (expecting_answer st = expecting_answer st'
      \/ (current_answer st = []
          /\ (truthy_opt (current_question st) = true
              \/ expecting_question st = true))).

(** Two states from which the rest of the response gives the same
    pairs. *)
Definition agree (st st' : parser) : Prop :=
  (idle st /\ idle st') \/ same_but_waiting st st'.

(** The lines that start with a question marker or an answer marker. *)
Definition marker_count (lines : list str) : nat :=
  length (filter (fun raw => is_question_line raw || is_answer_line raw)
                 lines).

(** One for a question that is set or waited for. *)
Definition pending (st : parser) : nat :=
  if truthy_opt (current_question st) || expecting_question st then 1 else 0.

(** *** Responses in the expected format

    A question or an answer is written on the line of its marker, after
    the colon, or on the line after a marker that has nothing after its
    colon. *)
Inductive part : Type :=
| Inline (marker : str)
| Bare (marker text : str).

(** A question, its answer and the lines that continue the answer. *)
Record block : Type := Block {
  block_question : part;
  block_answer : part;
  block_more : list str
}.

Definition part_lines (p : part) : list str :=
  match p with
  | Inline marker => [marker]
  | Bare marker text => [marker; text]
  end.

Definition block_lines (b : block) : list str :=
  part_lines (block_question b) ++ part_lines (block_answer b)
  ++ block_more b.

(** The marker line has text after its colon. *)
Definition has_inline (raw : str) : bool :=
  match inline_text (strip raw) with
  | Some _ => true
  | None => false
  end.

(** A line that is not blank and starts with no marker. *)
Definition plain_line (raw : str) : bool :=
  truthy (strip raw) && negb (is_question_line raw)
  && negb (is_answer_line raw).

(** The line after a bare question marker is taken whole unless it is
    blank or starts with a question marker itself. *)
Definition valid_question (p : part) : bool :=
  match p with
  | Inline marker => is_question_line marker && has_inline marker
  | Bare marker text =>
      is_question_line marker && negb (has_inline marker)
      && truthy (strip text) && negb (is_question_line text)
  end.

Definition valid_answer (p : part) : bool :=
  match p with
  | Inline marker => is_inline_answer marker
  | Bare marker text =>
      negb (is_question_line marker) && is_answer_line marker
      && negb (has_inline marker) && plain_line text
  end.

Definition valid_block (b : block) : bool :=
  valid_question (block_question b) && valid_answer (block_answer b)
  && forallb plain_line (block_more b).

(** The text of a question or of an answer. *)
Definition part_text (p : part) : str :=
  match p with
  | Inline marker => text_of marker
  | Bare _ text => strip text
  end.

(** The answer with the lines that continue it, each after one space. *)
Definition continued (answer : str) (more : list str) : str :=
  fold_left (fun acc raw => acc ++ space ++ strip raw) more answer.

Definition block_pair (b : block) : QAPair :=
  Pair (part_text (block_question b))
       (continued (part_text (block_answer b)) (block_more b)).

(** A response written as two blocks. *)
Definition example_blocks : list block :=
  [Block (Inline (py "Question 1: What is X?"))
         (Bare (py "Answer 1:") (py "X is Y."))
         [py "More detail."];
   Block (Bare (py "Domanda 2:") (py "Why: because?"))
         (Inline (py "Risposta 2: Z"))
         []].

Definition example_response : str :=
  join nl [py "Question 1: What is X?"; py "Answer 1:"; py "X is Y.";
           py "More detail."; py "Domanda 2:"; py "Why: because?";
           py "Risposta 2: Z"].

(** ** The worker: [GeminiProcessor.run] of [gemini_processor.py]

    The PDF library and the service are outside the program.  A run is
    taken in a world that fixes what they give: the pages of the PDF, and
    what the n-th call of [model.generate_content] does.  The worker is
    then a function of the world; it records what it does, in order, as
    events. *)

(** What a call gives: a value, or an exception [e], kept as [str(e)]. *)
Inductive result (A : Type) : Type :=
| Done (value : A)
| Raised (message : str).

Arguments Done {A} value.
Arguments Raised {A} message.

(** A response of the service, through the one thing [run] reads of it:
    [response.text], which is a text or raises. *)
Definition response : Type := result str.

Inductive event : Type :=
| GenerateContent (prompt : str)
| Print (line : str)
| Sleep (seconds : Z)
| ProgressUpdate (value : Z)
| ProcessingComplete (pairs : list QAPair)
| ErrorOccurred (message : str).

Record world : Type := World {
  (** [self.api_key], from [os.getenv("API_KEY")] *)
  api_key : option str;
  (** [self.language] *)
  language : str;
  (** lines 63-64: [genai.configure] and [genai.GenerativeModel] *)
  setup : result unit;
  (** lines 135-137: [fitz.open] and [page.get_text()] of every page *)
  pdf : result (list str);
  (** the calls of [model.generate_content], in the order they are made *)
  service : nat -> result response
}.

(** What a run changes: the number of calls made to the service, the
    global variable [response] (unset, or a response), [self.qa_pairs],
    and the events so far. *)
Record machine : Type := Machine {
  calls : nat;
  global_response : option response;
  self_qa_pairs : list QAPair;
  trace : list event
}.

(** A piece of the body of [run]: it changes the machine and ends
    normally or with an exception. *)
Definition action (A : Type) : Type := machine -> result A * machine.

Definition ret {A : Type} (a : A) : action A := fun m => (Done a, m).

Definition raise {A : Type} (message : str) : action A :=
  fun m => (Raised message, m).

Definition bind {A B : Type} (c : action A) (k : A -> action B) : action B :=
  fun m =>
    match c m with
    | (Done a, m') => k a m'
    | (Raised message, m') => (Raised message, m')
    end.

Notation "x <- c ;; k" := (bind c (fun x => k))
  (at level 61, c at next level, right associativity).
Notation "c ;;; k" := (bind c (fun _ => k))
  (at level 61, right associativity).

Definition record (e : event) : action unit :=
  fun m =>
    (Done tt,
     Machine (calls m) (global_response m) (self_qa_pairs m)
             (trace m ++ [e])).

(** [response = model.generate_content(prompt)], up to the assignment. *)
Definition generate_content (w : world) (prompt : str) : action response :=
  fun m =>
    (service w (calls m),
     Machine (S (calls m)) (global_response m) (self_qa_pairs m)
             (trace m ++ [GenerateContent prompt])).

Definition set_response (r : response) : action unit :=
  fun m =>
    (Done tt, Machine (calls m) (Some r) (self_qa_pairs m) (trace m)).

(** Reading the global [response]: a [NameError] when it was never
    assigned. *)
Definition get_response : action response :=
  fun m =>
    match global_response m with
    | Some r => (Done r, m)
    | None => (Raised (py "name 'response' is not defined"), m)
    end.

(** [self.qa_pairs.extend(qa_section)]. *)
Definition extend_qa_pairs (section : list QAPair) : action unit :=
  fun m =>
    (Done tt,
     Machine (calls m) (global_response m) (self_qa_pairs m ++ section)
             (trace m)).

Definition get_qa_pairs : action (list QAPair) :=
  fun m => (Done (self_qa_pairs m), m).

(** [sub in s]. *)
Fixpoint contains (s sub : str) : bool :=
  startswith s sub
  || match s with
     | [] => false
     | _ :: s' => contains s' sub
     end.

(** [str(n)] for an integer. *)
Definition str_of_int (n : Z) : str :=
  py (DecimalString.NilZero.string_of_int (Z.to_int n)).

(** [int(x)] for a float that is finite: the digits after the point are
    dropped. *)
Definition int_of_float (x : PrimFloat.float) : Z :=
  match FloatOps.Prim2SF x with
  | SpecFloat.S754_finite negative m e =>
      let magnitude :=
        if (0 <=? e)%Z then (Z.pos m * 2 ^ e)%Z else (Z.pos m / 2 ^ (- e))%Z in
      if negative then (- magnitude)%Z else magnitude
  | _ => 0%Z
  end.

(** An integer below 2^53 as a float. *)
Definition float_of_nat (n : nat) : PrimFloat.float :=
  PrimFloat.of_uint63 (Uint63.of_Z (Z.of_nat n)).

(** Line 112: [int((i + 1) / len(chunks) * 100)], in the floating point
    numbers of Python (binary64). *)
Definition progress_of (i total : nat) : Z :=
  int_of_float
    (PrimFloat.mul (PrimFloat.div (float_of_nat (i + 1)) (float_of_nat total))
                   (float_of_nat 100)).

(** Lines 75-81: the dictionary and its [get] with a default. *)
Definition language_prompts : list (str * str) :=
  [(py "Italiano", py "in italiano");
   (py "English", py "in English");
   (py "Fran" ++ [231%N] ++ py "ais", py "en fran" ++ [231%N] ++ py "ais");
   (py "Espa" ++ [241%N] ++ py "ol", py "en espa" ++ [241%N] ++ py "ol");
   (py "Deutsch", py "auf Deutsch")].

Fixpoint str_eqb (a b : str) : bool :=
  match a, b with
  | [], [] => true
  | c :: a', d :: b' => N.eqb c d && str_eqb a' b'
  | _, _ => false
  end.

Fixpoint dict_get (d : list (str * str)) (key default : str) : str :=
  match d with
  | [] => default
  | (k, v) :: d' => if str_eqb k key then v else dict_get d' key default
  end.

Definition language_prompt (w : world) : str :=
  dict_get language_prompts (language w) (py "in italiano").

(** Lines 85-92: the prompt, with its line breaks and its indentation of
    sixteen spaces. *)
Definition indent : str := repeat 32%N 16.

Definition make_prompt (language_prompt chunk : str) : str :=
  [nl] ++ indent
  ++ py "Analyze the following text and generate 2 possible questions that a professor might ask,"
  ++ [nl] ++ indent ++ py "along with their answers " ++ language_prompt
  ++ py "."
  ++ [nl] ++ indent
  ++ py "Format the questions and answers clearly (Question 1:, Answer 1:, etc)."
  ++ [nl] ++ [nl] ++ indent ++ py "Text to analyze:"
  ++ [nl] ++ indent ++ chunk
  ++ [nl] ++ indent.

(** Lines 96-106: the attempts that are left, with the current
    [wait_time].  A response ends the loop; an exception with [429] in
    its message is followed by a pause and the next attempt; any other
    exception is raised again. *)
Fixpoint attempts (w : world) (prompt : str) (left : nat) (wait_time : Z)
  : action unit :=
  match left with
  | O => ret tt
  | S left' =>
      fun m =>
        match generate_content w prompt m with
        | (Done r, m') => set_response r m'
        | (Raised message, m') =>
            if contains message (py "429")
            then (record (Print (py "Quota exceeded. Retrying in "
                                 ++ str_of_int wait_time
                                 ++ py " seconds..."));;;
                  record (Sleep wait_time);;;
                  attempts w prompt left' (wait_time + 1)%Z) m'
            else (Raised message, m')
        end
  end.

(** Lines 85-113: the body of the loop over the chunks. *)
Definition process_chunk (w : world) (total i : nat) (chunk : str)
  : action unit :=
  let prompt := make_prompt (language_prompt w) chunk in
  attempts w prompt 3 1;;;
  r <- get_response;;
  response_text <- (fun m => (r, m));;
  extend_qa_pairs (qa_section response_text);;;
  record (ProgressUpdate (progress_of i total)).

(** Lines 84-113: [for i, chunk in enumerate(chunks)], from the chunk of
    index [i]. *)
Fixpoint process_chunks (w : world) (total i : nat) (chunks : list str)
  : action unit :=
  match chunks with
  | [] => ret tt
  | chunk :: chunks' =>
      process_chunk w total i chunk;;;
      process_chunks w total (S i) chunks'
  end.

(** Lines 133-141: [extract_text_from_pdf]. *)
Definition extract_text_from_pdf (w : world) : action str :=
  match pdf w with
  | Done pages => ret (concat pages)
  | Raised message =>
      record (ErrorOccurred (py "Error extracting text from PDF: "
                             ++ message));;;
      ret []
  end.

(** Lines 57-115: the body of the [try] of [run]. *)
Definition run_body (w : world) : action unit :=
  if negb (truthy_opt (api_key w)) then
    record (ErrorOccurred
              (py "Gemini API key not found in .env file. Add API_KEY=your_key in the .env file."))
  else
    (fun m => (setup w, m));;;
    text_content <- extract_text_from_pdf w;;
    if negb (truthy text_content) then
      record (ErrorOccurred
                (py "Unable to extract text from the PDF or the file is empty."))
    else
      let chunks := chunk_text text_content 4000 in
      process_chunks w (length chunks) 0 chunks;;;
      pairs <- get_qa_pairs;;
      record (ProcessingComplete pairs).

(** Lines 55-118: [run], with the [except] that ends it. *)
Definition run (w : world) (m : machine) : machine :=
  match run_body w m with
  | (Done _, m') => m'
  | (Raised message, m') =>
      Machine (calls m') (global_response m') (self_qa_pairs m')
              (trace m' ++ [ErrorOccurred (py "Error during processing: "
                                           ++ message)])
  end.

(** The machine of a worker that was just made, in a process that has
    not run one before: lines 37-41. *)
Definition fresh : machine := Machine 0 None [] [].

Definition is_complete (e : event) : bool :=
  match e with ProcessingComplete _ => true | _ => false end.

Definition is_terminal (e : event) : bool :=
  match e with
  | ProcessingComplete _ | ErrorOccurred _ => true
  | _ => false
  end.

(** An action that only adds events, none of them
    [processing_complete]. *)
Definition no_completion {A : Type} (c : action A) : Prop :=
  forall m, exists new,
    trace (snd (c m)) = trace m ++ new
    /\ forallb (fun e => negb (is_complete e)) new = true.


(** The events of the chunks from index [i] on when every call of the
    service is answered at once: the call, then the progress. *)
Fixpoint answered_events (language_prompt : str) (total i : nat)
  (chunks : list str) : list event :=
  match chunks with
  | [] => []
  | chunk :: chunks' =>
      GenerateContent (make_prompt language_prompt chunk)
      :: ProgressUpdate (progress_of i total)
      :: answered_events language_prompt total (S i) chunks'
  end.

(** The progress values of a run of [total] chunks are between 0 and 100,
    do not go down, and the last one is 100. *)
Definition progress_ok (total : nat) : bool :=
  forallb (fun i => let v := progress_of i total in
                    (0 <=? v)%Z && (v <=? progress_of (S i) total)%Z
                    && (v <=? 100)%Z)
          (seq 0 total)
  && (progress_of (total - 1) total =? 100)%Z.

(** A world in which the service answers every call at once with the
    same two lines. *)
Definition example_answer : str :=
  py "**Question 1:** Q" ++ [nl] ++ py "**Answer 1:** A".

Definition answering_world : world :=
  World (Some (py "key")) (py "English") (Done tt)
        (Done [py "Some text."; py " More text."])
        (fun _ => Done (Done example_answer)).

(** A world in which the service refuses every call for quota. *)
Definition quota_world : world :=
  World (Some (py "key")) (py "English") (Done tt)
        (Done [py "Some text."])
        (fun _ => Raised (py "429 Resource has been exhausted")).

(** The events of one attempt that is refused for quota. *)
Definition refused_events (prompt : str) (wait_time : Z) : list event :=
  [GenerateContent prompt;
   Print (py "Quota exceeded. Retrying in " ++ str_of_int wait_time
          ++ py " seconds...");
   Sleep wait_time].

(** The machine after the three attempts for a chunk were refused. *)
Definition after_refusals (prompt : str) (m : machine) : machine :=
  Machine (calls m + 3) (global_response m) (self_qa_pairs m)
          (trace m ++ refused_events prompt 1 ++ refused_events prompt 2
           ++ refused_events prompt 3).

(** * Properties of the chunker *)

Section ChunkerFacts.

Variable max_length : Z.

Lemma chunk_step_concat (st : chunker) (p : str) :
  concat (chunks (chunk_step max_length st p))
    ++ current_chunk (chunk_step max_length st p)
  = (concat (chunks st) ++ current_chunk st) ++ pad p.
Proof.
  unfold chunk_step, pad.
  destruct (len (current_chunk st) + len p <=? max_length)%Z; simpl.
  - now rewrite !app_assoc.
  - rewrite concat_app. simpl. now rewrite app_nil_r.
Qed.

Lemma chunk_loop_concat (ps : list str) :
  forall st,
    concat (chunks (chunk_loop max_length ps st))
      ++ current_chunk (chunk_loop max_length ps st)
    = (concat (chunks st) ++ current_chunk st) ++ concat (map pad ps).
Proof.
  induction ps as [|p ps IH]; intros st; simpl.
  - now rewrite app_nil_r.
  - unfold chunk_loop in *. simpl. rewrite IH, chunk_step_concat.
    now rewrite <- app_assoc.
Qed.

Lemma chunk_finish_concat (st : chunker) :
  concat (chunk_finish st) = concat (chunks st) ++ current_chunk st.
Proof.
  unfold chunk_finish. destruct (current_chunk st); simpl.
  - now rewrite app_nil_r.
  - rewrite concat_app. simpl. now rewrite app_nil_r.
Qed.

(** The chunks, put end to end, are the padded paragraphs in order. *)
Lemma chunk_text_concat (text : str) :
  concat (chunk_text text max_length) = concat (map pad (split nl text)).
Proof.
  unfold chunk_text. now rewrite chunk_finish_concat, chunk_loop_concat.
Qed.

End ChunkerFacts.

(** No piece of [s.split(sep)] contains [sep]. *)
Lemma split_no_sep (sep : char) (s : str) :
  Forall (fun p => ~ In sep p) (split sep s).
Proof.
  induction s as [|c s IH]; simpl.
  - constructor; [intros [] | constructor].
  - destruct (N.eqb_spec c sep) as [->|Hne].
    + constructor; [intros [] | exact IH].
    + destruct (split sep s) as [|p ps]; inversion IH; subst.
      * constructor; [|constructor]. intros [H|[]]. congruence.
      * constructor; [|assumption]. intros [H|H]; [congruence | tauto].
Qed.

(** [s.split(sep)] is never the empty list. *)
Lemma split_not_nil (sep : char) (s : str) : split sep s <> [].
Proof.
  destruct s as [|c s]; simpl; [discriminate|].
  destruct (N.eqb c sep); [discriminate|].
  destruct (split sep s); discriminate.
Qed.

(** Reading one padded paragraph that holds no newline. *)
Lemma split_str_from_pad (p rest cur : str) :
  ~ In nl p ->
  split_str_from separator (pad p ++ rest) 0 cur
  = (rev cur ++ p) :: split_str_from separator rest 0 [].
Proof.
  revert cur. induction p as [|c p IH]; intros cur Hnl.
  - simpl. now rewrite app_nil_r.
  - assert (Hc : N.eqb c nl = false).
    { apply N.eqb_neq. intros ->. apply Hnl. now left. }
    change (pad (c :: p) ++ rest) with (c :: (pad p ++ rest)).
    cbn [split_str_from separator startswith]. rewrite Hc. cbn [andb].
    rewrite IH by (intros H; apply Hnl; now right).
    simpl. now rewrite <- app_assoc.
Qed.

Lemma split_str_pads (ps : list str) :
  Forall (fun p => ~ In nl p) ps ->
  split_str separator (concat (map pad ps)) = ps ++ [[]].
Proof.
  unfold split_str. induction 1 as [|p ps Hp _ IH]; simpl; [reflexivity|].
  rewrite split_str_from_pad by assumption. simpl. now rewrite IH.
Qed.

Lemma len_app (a b : str) : len (a ++ b) = (len a + len b)%Z.
Proof. unfold len. rewrite length_app. lia. Qed.

Lemma len_pad (p : str) : len (pad p) = (len p + 2)%Z.
Proof. unfold pad. rewrite len_app. reflexivity. Qed.

Lemma len_nonneg (s : str) : (0 <= len s)%Z.
Proof. unfold len. lia. Qed.

Lemma truthy_pad (p : str) : truthy (pad p) = true.
Proof. destruct p; reflexivity. Qed.

(** C3: for every text and every [max_length > 0] the chunks, put end to
    end, are the paragraphs of the text ([text.split('\n')]), each followed
    by the double newline, in order; cutting the concatenation at the
    double newlines gives back the sequence of paragraphs, none dropped and
    none duplicated. *)
Theorem chunk_text_lossless (text : str) (max_length : Z) :
  (0 < max_length)%Z ->
  concat (chunk_text text max_length) = concat (map pad (split nl text))
  /\ paragraphs_of (chunk_text text max_length) = split nl text.
Proof.
  intros _. split.
  - apply chunk_text_concat.
  - unfold paragraphs_of. rewrite chunk_text_concat.
    rewrite split_str_pads by apply split_no_sep.
    apply removelast_last.
Qed.

Lemma chunk_text_lossless_witness :
  (0 < 3)%Z
  /\ (concat (chunk_text (py "ab" ++ [nl] ++ py "cd") 3)
      = concat (map pad (split nl (py "ab" ++ [nl] ++ py "cd")))
      /\ paragraphs_of (chunk_text (py "ab" ++ [nl] ++ py "cd") 3)
         = split nl (py "ab" ++ [nl] ++ py "cd")).
Proof.
  split; [lia | apply (chunk_text_lossless (py "ab" ++ [nl] ++ py "cd") 3)].
  lia.
Defined.

(** C8: for every [max_length > 0], [chunk_text] of the empty text is the
    one chunk ["\n\n"], the separator alone. *)
Theorem chunk_text_empty (max_length : Z) :
  (0 < max_length)%Z -> chunk_text [] max_length = [separator].
Proof.
  intros H. unfold chunk_text, chunk_loop, chunk_step. simpl.
  change (len []) with 0%Z.
  destruct (Z.leb_spec 0 max_length); [reflexivity | lia].
Qed.

Lemma chunk_text_empty_witness :
  (0 < 4000)%Z /\ chunk_text [] 4000 = [separator].
Proof.
  split; [lia | apply (chunk_text_empty 4000); lia].
Defined.

Section ChunkBound.

Variable max_length : Z.
Variable paragraphs : list str.

Let ok := padded_bounded_chunk max_length paragraphs.

Lemma chunk_step_bound (st : chunker) (p : str) :
  In p paragraphs ->
  Forall ok (chunks st) -> ok (current_chunk st) ->
  Forall ok (chunks (chunk_step max_length st p))
  /\ ok (current_chunk (chunk_step max_length st p)).
Proof.
  intros Hin Hcs Hcur. unfold chunk_step.
  destruct (Z.leb_spec (len (current_chunk st) + len p) max_length)
    as [Hle|Hgt]; simpl.
  - split; [assumption|]. left.
    rewrite !len_app. lia.
  - split.
    + apply Forall_app. split; [assumption | now constructor].
    + destruct (Z.le_gt_cases (len p) max_length) as [Hp|Hp].
      * left. rewrite len_app. lia.
      * right. exists p. now repeat split.
Qed.

Lemma chunk_loop_bound (ps : list str) :
  incl ps paragraphs ->
  forall st,
    Forall ok (chunks st) -> ok (current_chunk st) ->
    Forall ok (chunks (chunk_loop max_length ps st))
    /\ ok (current_chunk (chunk_loop max_length ps st)).
Proof.
  induction ps as [|p ps IH]; intros Hincl st Hcs Hcur.
  - now split.
  - unfold chunk_loop in *. simpl.
    destruct (chunk_step_bound st p) as [H1 H2]; auto.
    + apply Hincl. now left.
    + apply IH; auto. intros q Hq. apply Hincl. now right.
Qed.

End ChunkBound.

(** X1: What the code guarantees about the size of a chunk: a chunk is longer
    than [max_length] by at most the separator that ends it, unless it is
    one single paragraph longer than [max_length]. *)
Theorem chunk_text_padded_bound (text : str) (max_length : Z) :
  (0 <= max_length)%Z ->
  Forall (padded_bounded_chunk max_length (split nl text))
         (chunk_text text max_length).
Proof.
  intros HM. unfold chunk_text.
  destruct (chunk_loop_bound max_length (split nl text) (split nl text)
              (incl_refl _) (Chunker [] [])) as [H1 H2].
  - constructor.
  - left. simpl. unfold len. simpl. lia.
  - unfold chunk_finish.
    destruct (truthy _); [|assumption].
    apply Forall_app. split; [assumption | now constructor].
Qed.

Lemma chunk_text_padded_bound_witness :
  (0 <= 6)%Z
  /\ Forall (padded_bounded_chunk 6 (split nl (py "ab" ++ [nl] ++ py "cd")))
            (chunk_text (py "ab" ++ [nl] ++ py "cd") 6).
Proof.
  split; [lia | apply (chunk_text_padded_bound _ 6); lia].
Defined.

(** C1, at the chunk size the application uses, 4000: a text of one
    paragraph of 3999 characters gives one chunk of 4001 characters.  The
    chunk is longer than [max_length] and its only paragraph is not: the
    test of line 28 does not count the separator that line 29 appends. *)
Theorem chunk_text_exceeds_max_length :
  split nl long_paragraph = [long_paragraph]
  /\ len long_paragraph = 3999%Z
  /\ chunk_text long_paragraph 4000 = [pad long_paragraph]
  /\ len (pad long_paragraph) = 4001%Z
  /\ ~ Forall (bounded_chunk 4000 (split nl long_paragraph))
              (chunk_text long_paragraph 4000).
Proof.
  assert (Hs : split nl long_paragraph = [long_paragraph])
    by (vm_compute; reflexivity).
  assert (Hl : len long_paragraph = 3999%Z) by (vm_compute; reflexivity).
  assert (Hc : chunk_text long_paragraph 4000 = [pad long_paragraph])
    by (vm_compute; reflexivity).
  assert (Hp : len (pad long_paragraph) = 4001%Z)
    by (rewrite len_pad, Hl; reflexivity).
  repeat split; try assumption.
  rewrite Hc, Hs. intros H.
  apply Forall_inv in H. destruct H as [H | (p & Hin & _ & Hlt)].
  - lia.
  - destruct Hin as [<- | []]. lia.
Qed.

(** The same at a small size: two paragraphs of two characters and
    [max_length = 6] give one chunk of eight characters. *)
Example chunk_text_two_paragraphs :
  chunk_text (py "ab" ++ [nl] ++ py "cd") 6
  = [py "ab" ++ separator ++ py "cd" ++ separator].
Proof. reflexivity. Qed.

Lemma chunk_loop_cons (max_length : Z) (p : str) (ps : list str)
  (st : chunker) :
  chunk_loop max_length (p :: ps) st
  = chunk_loop max_length ps (chunk_step max_length st p).
Proof. reflexivity. Qed.

(** With [max_length <= 0] the test of line 28 fails for every paragraph
    once the buffer holds a separator. *)
Lemma chunk_step_nonpositive (max_length : Z) (cs : list str) (q q' : str) :
  (max_length <= 0)%Z ->
  chunk_step max_length (Chunker cs (pad q)) q'
  = Chunker (cs ++ [pad q]) (pad q').
Proof.
  intros HM. unfold chunk_step. cbn [current_chunk chunks].
  destruct (Z.leb_spec (len (pad q) + len q') max_length) as [Hle|_].
  - rewrite len_pad in Hle. pose proof (len_nonneg q).
    pose proof (len_nonneg q'). lia.
  - reflexivity.
Qed.

Lemma chunk_finish_loop_nonpositive (max_length : Z) (qs : list str) :
  (max_length <= 0)%Z ->
  forall cs q,
    chunk_finish (chunk_loop max_length qs (Chunker cs (pad q)))
    = cs ++ map pad (q :: qs).
Proof.
  intros HM. induction qs as [|q' qs IH]; intros cs q.
  - unfold chunk_finish, chunk_loop. cbn [fold_left current_chunk chunks].
    now rewrite truthy_pad.
  - rewrite chunk_loop_cons, chunk_step_nonpositive by assumption.
    rewrite IH. now rewrite <- app_assoc.
Qed.

(** C2 as stated fails: with [max_length = 0] the call returns two
    chunks and does not raise. *)
Lemma chunk_text_zero_returns :
  chunk_text_call (py "abc") 0 = Returns [[]; pad (py "abc")]
  /\ ~ raises (chunk_text_call (py "abc") 0).
Proof.
  split; [reflexivity|]. intros [e He]. discriminate He.
Qed.

(** C2, amended: with [max_length <= 0] the call does not raise; it
    returns one chunk for each paragraph, the paragraph followed by the
    double newline, after a first empty chunk; the empty chunk is absent
    when [max_length = 0] and the first paragraph is empty. *)
Theorem chunk_text_nonpositive (text : str) (max_length : Z) :
  (max_length <= 0)%Z ->
  chunk_text_call text max_length
  = Returns (if (max_length =? 0)%Z && negb (truthy (hd [] (split nl text)))
             then map pad (split nl text)
             else [] :: map pad (split nl text)).
Proof.
  intros HM. unfold chunk_text_call, chunk_text. f_equal.
  pose proof (split_not_nil nl text) as Hne.
  destruct (split nl text) as [|p ps]; [congruence|].
  rewrite chunk_loop_cons. cbn [hd].
  unfold chunk_step. cbn [current_chunk chunks app].
  change (len []) with 0%Z.
  pose proof (len_nonneg p) as Hp.
  destruct (Z.leb_spec (0 + len p) max_length) as [Hle|Hgt].
  - assert (max_length = 0%Z) as -> by lia.
    assert (p = []) as ->.
    { destruct p; [reflexivity|]. unfold len in Hle. simpl in Hle. lia. }
    cbn [Z.eqb truthy negb andb].
    exact (chunk_finish_loop_nonpositive 0 ps HM [] []).
  - replace ((max_length =? 0)%Z && negb (truthy p)) with false.
    + exact (chunk_finish_loop_nonpositive max_length ps HM [[]] p).
    + destruct (Z.eqb_spec max_length 0) as [->|]; [|reflexivity].
      destruct p; [unfold len in Hgt; simpl in Hgt; lia | reflexivity].
Qed.

Lemma chunk_text_nonpositive_witness :
  (-1 <= 0)%Z
  /\ chunk_text_call (py "ab" ++ [nl] ++ py "cd") (-1)
     = Returns
         (if (-1 =? 0)%Z
             && negb (truthy (hd [] (split nl (py "ab" ++ [nl] ++ py "cd"))))
          then map pad (split nl (py "ab" ++ [nl] ++ py "cd"))
          else [] :: map pad (split nl (py "ab" ++ [nl] ++ py "cd"))).
Proof.
  split; [lia | apply (chunk_text_nonpositive _ (-1)); lia].
Defined.

(** * Properties of [strip] *)

Lemma lstrip_hd (s : str) (c : char) :
  hd_error (lstrip s) = Some c -> is_space c = false.
Proof.
  induction s as [|d s IH]; simpl; [discriminate|].
  destruct (is_space d) eqn:Hd; [exact IH|].
  simpl. intros [= <-]. exact Hd.
Qed.

(** [lstrip] removes a prefix. *)
Lemma lstrip_suffix (s : str) : exists w, s = w ++ lstrip s.
Proof.
  induction s as [|d s [w IH]]; simpl.
  - now exists [].
  - destruct (is_space d).
    + exists (d :: w). simpl. now f_equal.
    + now exists [].
Qed.

(** The result of [strip] has no white space at either end. *)
Lemma strip_trimmed (s : str) : trimmed (strip s).
Proof.
  unfold trimmed, strip, rstrip. intros c [H|H].
  - destruct (lstrip_suffix (rev (lstrip s))) as [w Hw].
    apply (f_equal (@rev char)) in Hw.
    rewrite rev_involutive, rev_app_distr in Hw.
    destruct (rev (lstrip (rev (lstrip s)))) as [|d r]; [discriminate|].
    injection H as ->. apply (lstrip_hd s). now rewrite Hw.
  - rewrite rev_involutive in H. exact (lstrip_hd _ _ H).
Qed.

Lemma truthy_not_nil (s : str) : truthy s = true -> s <> [].
Proof. destruct s; [discriminate | discriminate]. Qed.

(** The text after the colon, when there is one, is not empty and has no
    white space at either end. *)
Lemma inline_text_some (line t : str) :
  inline_text line = Some t -> truthy t = true /\ trimmed t.
Proof.
  unfold inline_text.
  destruct ((1 <? length (split1 colon line))%nat
            && truthy (strip (nth 1 (split1 colon line) []))) eqn:H;
    [|discriminate].
  intros [= <-]. apply andb_prop in H. split; [apply H | apply strip_trimmed].
Qed.

(** * Properties of the loop body *)

(** [step] runs the branch that [branch_of] names. *)
Lemma step_run_branch (st : parser) (raw : str) :
  step st raw = run_branch (branch_of st raw) st (strip raw).
Proof.
  unfold step, branch_of.
  destruct (negb (truthy (strip raw))); [reflexivity|].
  destruct (startswith_any (strip raw) question_markers); [reflexivity|].
  destruct (expecting_question st); [reflexivity|].
  destruct (startswith_any (strip raw) answer_markers); [reflexivity|].
  destruct (expecting_answer st); reflexivity.
Qed.

Lemma parse_loop_cons (raw : str) (lines : list str) (st : parser) :
  parse_loop (raw :: lines) st = parse_loop lines (step st raw).
Proof. reflexivity. Qed.

Lemma parse_loop_app (l1 l2 : list str) (st : parser) :
  parse_loop (l1 ++ l2) st = parse_loop l2 (parse_loop l1 st).
Proof. apply fold_left_app. Qed.

(** C4: a line whose trimmed text starts with ["Réponse"] takes the
    question-marker branch of the loop body, in every state, and never the
    answer-marker branch: the question markers are tested first. *)
Theorem reponse_is_question_marker (st : parser) (raw : str) :
  startswith (strip raw) Reponse = true ->
  branch_of st raw = QuestionMarker
  /\ branch_of st raw <> AnswerMarker
  /\ step st raw = on_question_marker st (strip raw).
Proof.
  intros H.
  assert (Hb : branch_of st raw = QuestionMarker).
  { unfold branch_of.
    destruct (strip raw) as [|c l] eqn:Hl; [discriminate H|].
    cbn [truthy negb].
    unfold startswith_any, question_markers. cbn [existsb].
    rewrite H. now rewrite !orb_true_r. }
  split; [exact Hb|]. split; [rewrite Hb; discriminate|].
  rewrite step_run_branch, Hb. reflexivity.
Qed.

Lemma reponse_is_question_marker_witness :
  startswith (strip (py "  " ++ Reponse ++ py " 1: oui")) Reponse = true
  /\ (branch_of (Parser [] (Some (py "Q")) [] false false)
                (py "  " ++ Reponse ++ py " 1: oui") = QuestionMarker
      /\ branch_of (Parser [] (Some (py "Q")) [] false false)
                   (py "  " ++ Reponse ++ py " 1: oui") <> AnswerMarker
      /\ step (Parser [] (Some (py "Q")) [] false false)
              (py "  " ++ Reponse ++ py " 1: oui")
         = on_question_marker (Parser [] (Some (py "Q")) [] false false)
                              (strip (py "  " ++ Reponse ++ py " 1: oui"))).
Proof.
  split; [reflexivity | apply reponse_is_question_marker; reflexivity].
Defined.

(** The ["Réponse"] of the answer markers is never the one that matches:
    a line that takes the answer-marker branch starts with one of the
    other four. *)
Lemma answer_branch_markers (st : parser) (raw : str) :
  branch_of st raw = AnswerMarker ->
  startswith_any (strip raw)
    [py "Risposta"; py "Answer"; py "Antwort"; py "Respuesta"] = true.
Proof.
  unfold branch_of.
  destruct (negb (truthy (strip raw))); [discriminate|].
  destruct (startswith_any (strip raw) question_markers) eqn:Hq;
    [discriminate|].
  destruct (expecting_question st); [discriminate|].
  destruct (startswith_any (strip raw) answer_markers) eqn:Ha.
  - intros _. unfold startswith_any, question_markers, answer_markers in *.
    cbn [existsb] in *.
    destruct (startswith (strip raw) Reponse).
    + now rewrite !orb_true_r in Hq.
    + now rewrite !orb_false_r in *.
  - destruct (expecting_answer st); discriminate.
Qed.

(** The effect on a whole response: the ["Réponse"] line closes the
    pending question with an empty answer and opens a new question. *)
Example reponse_line_opens_question :
  parse_qa_response (join nl [py "Question 1: Q"; Reponse ++ py " 1: A"])
  = [Pair (py "Q") []; Pair (py "A") []].
Proof. reflexivity. Qed.

(** C9: the response of the five lines [Question 1:], [What is X?],
    [Answer 1:], [X is Y.], [More detail.] gives the one pair with the
    question [What is X?] and the answer [X is Y. More detail.]; the bare
    markers take their text from the next line and the last line is added
    to the answer after one space. *)
Theorem parse_bare_markers :
  parse_qa_response
    (join nl [py "Question 1:"; py "What is X?"; py "Answer 1:";
              py "X is Y."; py "More detail."])
  = [Pair (py "What is X?") (py "X is Y. More detail.")]
  /\ parse_loop [py "Question 1:"] initial = Parser [] None [] true false
  /\ parse_loop [py "Question 1:"; py "What is X?"; py "Answer 1:"] initial
     = Parser [] (Some (py "What is X?")) [] false true
  /\ parse_loop [py "Question 1:"; py "What is X?"; py "Answer 1:";
                 py "X is Y."] initial
     = Parser [] (Some (py "What is X?")) (py "X is Y.") false false
  /\ parse_loop [py "Question 1:"; py "What is X?"; py "Answer 1:";
                 py "X is Y."; py "More detail."] initial
     = Parser [] (Some (py "What is X?"))
              (py "X is Y." ++ space ++ py "More detail.") false false.
Proof. repeat split; reflexivity. Qed.

(** * Responses without markers *)

(** A line that is no question marker leaves an idle parser idle. *)
Lemma step_idle (st : parser) (raw : str) :
  is_question_line raw = false -> idle st -> idle (step st raw).
Proof.
  unfold is_question_line. intros Hq (Hp & Hc & He).
  rewrite step_run_branch. unfold branch_of. rewrite Hq, He.
  destruct (negb (truthy (strip raw))); [now repeat split|].
  destruct (startswith_any (strip raw) answer_markers).
  - unfold run_branch, on_answer_marker. rewrite Hc. cbn [truthy_opt andb].
    destruct (inline_text (strip raw)); now repeat split.
  - destruct (expecting_answer st).
    + now repeat split.
    + unfold run_branch, on_continuation. rewrite Hc. cbn [truthy_opt].
      destruct (truthy (current_answer st)); now repeat split.
Qed.

Lemma parse_loop_idle (lines : list str) :
  Forall (fun raw => is_question_line raw = false) lines ->
  forall st, idle st -> idle (parse_loop lines st).
Proof.
  induction 1 as [|raw lines Hraw _ IH]; intros st Hst; [exact Hst|].
  rewrite parse_loop_cons. apply IH. now apply step_idle.
Qed.

(** Without a question marker there is no pair, whatever the other lines
    are. *)
Lemma parse_without_question (text : str) :
  Forall (fun raw => is_question_line raw = false) (split nl text) ->
  parse_qa_response text = [].
Proof.
  intros H. unfold parse_qa_response, parse_lines.
  destruct (parse_loop_idle _ H initial) as (Hp & Hc & _);
    [now repeat split|].
  unfold parse_finish. now rewrite Hc, Hp.
Qed.

(** C6: when no trimmed line of the response starts with a question marker
    or an answer marker, the call returns the empty list and does not
    raise; [parse_qa_response] of the empty string is such a call. *)
Theorem parse_without_markers (text : str) :
  (forall raw, In raw (split nl text) ->
     startswith_any (strip raw) question_markers = false
     /\ startswith_any (strip raw) answer_markers = false) ->
  parse_qa_response_call text = Returns []
  /\ parse_qa_response_call [] = Returns [].
Proof.
  intros H. split; [|reflexivity].
  unfold parse_qa_response_call. f_equal. apply parse_without_question.
  apply Forall_forall. intros raw Hraw. apply (H raw Hraw).
Qed.

Lemma parse_without_markers_witness :
  (forall raw, In raw (split nl (py "no marker" ++ [nl] ++ py "  here ")) ->
     startswith_any (strip raw) question_markers = false
     /\ startswith_any (strip raw) answer_markers = false)
  /\ (parse_qa_response_call (py "no marker" ++ [nl] ++ py "  here ")
      = Returns []
      /\ parse_qa_response_call [] = Returns []).
Proof.
  assert (H : forall raw,
             In raw (split nl (py "no marker" ++ [nl] ++ py "  here ")) ->
             startswith_any (strip raw) question_markers = false
             /\ startswith_any (strip raw) answer_markers = false).
  { intros raw [<-|[<-|[]]]; split; reflexivity. }
  split; [exact H | exact (parse_without_markers _ H)].
Defined.

(** * Pairs are well formed *)

Lemma strip_line_trimmed (raw : str) :
  truthy (strip raw) = true -> strip raw <> [] /\ trimmed (strip raw).
Proof.
  intros H. split; [now apply truthy_not_nil | apply strip_trimmed].
Qed.

Lemma append_pair_well_formed (st : parser) :
  parser_inv st -> Forall well_formed (append_pair st).
Proof.
  intros [Hp Hq]. unfold append_pair.
  destruct (current_question st) as [q|]; [|exact Hp].
  apply Forall_app. split; [exact Hp|]. constructor; [|constructor].
  destruct (Hq q eq_refl) as [Hne Htr].
  repeat split; simpl; try assumption. apply strip_trimmed.
Qed.

Lemma step_inv (st : parser) (raw : str) :
  parser_inv st -> parser_inv (step st raw).
Proof.
  intros Hinv. pose proof (append_pair_well_formed st Hinv) as Happ.
  destruct Hinv as [Hp Hq]. unfold step.
  destruct (truthy (strip raw)) eqn:Hline; cbn [negb]; [|now split].
  destruct (strip_line_trimmed raw Hline) as [Hne Htr].
  destruct (startswith_any (strip raw) question_markers).
  { unfold on_question_marker.
    assert (Hpairs : Forall well_formed
              (if truthy_opt (current_question st) then append_pair st
               else qa_pairs st))
      by (destruct (truthy_opt (current_question st)); assumption).
    destruct (inline_text (strip raw)) as [t|] eqn:Ht; split; simpl;
      try assumption; try discriminate.
    intros q [= <-]. destruct (inline_text_some _ _ Ht) as [H1 H2].
    split; [now apply truthy_not_nil | assumption]. }
  destruct (expecting_question st).
  { split; simpl; [assumption|]. intros q [= <-]. now split. }
  destruct (startswith_any (strip raw) answer_markers).
  { unfold on_answer_marker.
    assert (Hpairs : Forall well_formed
              (if truthy_opt (current_question st)
                  && truthy (current_answer st)
               then append_pair st else qa_pairs st))
      by (destruct (truthy_opt (current_question st)
                    && truthy (current_answer st)); assumption).
    destruct (inline_text (strip raw)); split; simpl; assumption. }
  destruct (expecting_answer st).
  { split; simpl; assumption. }
  unfold on_continuation.
  destruct (truthy (current_answer st)); [split; simpl; assumption|].
  destruct (truthy_opt (current_question st)); split; simpl; assumption.
Qed.

Lemma parse_loop_inv (lines : list str) :
  forall st, parser_inv st -> parser_inv (parse_loop lines st).
Proof.
  induction lines as [|raw lines IH]; intros st Hst; [exact Hst|].
  rewrite parse_loop_cons. apply IH. now apply step_inv.
Qed.

Lemma initial_inv : parser_inv initial.
Proof. split; [constructor | discriminate]. Qed.

Lemma final_state_inv (text : str) : parser_inv (final_state text).
Proof. apply parse_loop_inv, initial_inv. Qed.

(** C7: in every pair that [parse_qa_response] returns the question is
    not empty, and neither the question nor the answer starts or ends with
    white space (the answer may be empty). *)
Theorem parse_pairs_well_formed (text : str) (p : QAPair) :
  In p (parse_qa_response text) ->
  question p <> []
  /\ trimmed (question p)
  /\ trimmed (answer p).
Proof.
  intros Hin.
  assert (H : Forall well_formed (parse_qa_response text)).
  { unfold parse_qa_response, parse_lines, parse_finish.
    pose proof (final_state_inv text) as Hinv. unfold final_state in Hinv.
    destruct (truthy_opt _);
      [now apply append_pair_well_formed | apply Hinv]. }
  rewrite Forall_forall in H. exact (H p Hin).
Qed.

Lemma parse_pairs_well_formed_witness :
  In (Pair (py "What is X?") (py "X is Y."))
     (parse_qa_response
        (py "Question 1:  What is X? " ++ [nl] ++ py "Answer 1: X is Y.  "))
  /\ (question (Pair (py "What is X?") (py "X is Y.")) <> []
      /\ trimmed (question (Pair (py "What is X?") (py "X is Y.")))
      /\ trimmed (answer (Pair (py "What is X?") (py "X is Y.")))).
Proof.
  assert (H : In (Pair (py "What is X?") (py "X is Y."))
                (parse_qa_response
                   (py "Question 1:  What is X? " ++ [nl]
                    ++ py "Answer 1: X is Y.  ")))
    by (left; reflexivity).
  split; [exact H | exact (parse_pairs_well_formed _ _ H)].
Defined.

(** * The pending question *)

(** C5: when the input ends with a question pending ([current_question]
    is set), the result is the pairs emitted so far followed by one last
    pair of that question and the trimmed [current_answer], empty or not;
    the response [Question 1: Q only, no answer marker ever appears] gives
    exactly one pair, with that text as question and an empty answer. *)
Theorem parse_pending_question :
  (forall text q,
      current_question (final_state text) = Some q ->
      parse_qa_response text
      = qa_pairs (final_state text)
          ++ [Pair q (strip (current_answer (final_state text)))])
  /\ parse_qa_response question_only
     = [Pair (py "Q only, no answer marker ever appears") []].
Proof.
  split; [|reflexivity]. intros text q Hq.
  destruct (final_state_inv text) as [_ Hinv].
  destruct (Hinv q Hq) as [Hne _].
  unfold parse_qa_response, parse_lines, parse_finish, append_pair.
  fold (final_state text). rewrite Hq.
  destruct q; [congruence | reflexivity].
Qed.

Lemma parse_pending_question_witness :
  current_question
    (final_state (py "Question 1: Q" ++ [nl] ++ py "Answer 1:" ++ [nl]
                  ++ py " A "))
  = Some (py "Q")
  /\ parse_qa_response (py "Question 1: Q" ++ [nl] ++ py "Answer 1:" ++ [nl]
                        ++ py " A ")
     = qa_pairs (final_state (py "Question 1: Q" ++ [nl] ++ py "Answer 1:"
                              ++ [nl] ++ py " A "))
         ++ [Pair (py "Q")
               (strip (current_answer
                         (final_state (py "Question 1: Q" ++ [nl]
                                       ++ py "Answer 1:" ++ [nl]
                                       ++ py " A "))))].
Proof.
  split; [reflexivity | apply (proj1 parse_pending_question); reflexivity].
Defined.

(** * Several answers under one question *)

Lemma subsequence_nil_l {A : Type} (l : list A) : subsequence [] l.
Proof. induction l; constructor; assumption. Qed.

Lemma subsequence_app_r {A : Type} (sub l l' : list A) :
  subsequence sub l -> subsequence sub (l ++ l').
Proof.
  induction 1; simpl.
  - apply subsequence_nil_l.
  - now constructor.
  - now constructor.
Qed.

Lemma subsequence_snoc {A : Type} (sub l : list A) (x : A) :
  subsequence sub l -> subsequence (sub ++ [x]) (l ++ [x]).
Proof.
  induction 1; simpl.
  - apply subsequence_keep, subsequence_nil.
  - now apply subsequence_skip.
  - now apply subsequence_keep.
Qed.

Lemma subsequence_app_inv {A : Type} (l : list A) :
  forall s1 s2, subsequence (s1 ++ s2) l -> subsequence s1 l.
Proof.
  induction l as [|x l IH]; intros s1 s2 H.
  - inversion H as [E| |]. destruct s1; [constructor | discriminate E].
  - destruct s1 as [|y s1]; [apply subsequence_nil_l|].
    inversion H as [|x' sub' l' Hs|x' sub' l' Hs]; subst.
    + apply subsequence_skip. now apply (IH (y :: s1) s2).
    + apply subsequence_keep. now apply (IH s1 s2).
Qed.

(** [lstrip] stops at the latest at a character that is no white space. *)
Lemma lstrip_keep (w u : str) (c : char) :
  hd_error u = Some c -> is_space c = false ->
  exists w', lstrip (w ++ u) = w' ++ u.
Proof.
  intros Hu Hc. induction w as [|d w [w' IH]]; simpl.
  - exists []. destruct u as [|e u]; [discriminate|].
    injection Hu as ->. simpl. now rewrite Hc.
  - destruct (is_space d); [now exists w' | now exists (d :: w)].
Qed.

(** [strip] keeps a trimmed text at the start of a string. *)
Lemma strip_keeps_prefix (t cont : str) :
  t <> [] -> trimmed t -> exists rest, strip (t ++ cont) = t ++ rest.
Proof.
  intros Hne Htr. unfold strip, rstrip.
  assert (Hl : lstrip (t ++ cont) = t ++ cont).
  { destruct t as [|c t]; [congruence|]. simpl.
    now rewrite (Htr c (or_introl eq_refl)). }
  rewrite Hl, rev_app_distr.
  destruct (rev t) as [|c r] eqn:Hr.
  { apply (f_equal (@rev char)) in Hr. rewrite rev_involutive in Hr.
    simpl in Hr. congruence. }
  destruct (lstrip_keep (rev cont) (c :: r) c eq_refl) as [w' Hw'].
  { apply Htr. right. now rewrite Hr. }
  rewrite Hw', rev_app_distr, <- Hr, rev_involutive. now exists (rev w').
Qed.

Lemma question_line_truthy (raw : str) :
  is_question_line raw = true -> truthy (strip raw) = true.
Proof.
  unfold is_question_line. destruct (strip raw); [discriminate | reflexivity].
Qed.

Lemma answer_line_truthy (raw : str) :
  is_answer_line raw = true -> truthy (strip raw) = true.
Proof.
  unfold is_answer_line. destruct (strip raw); [discriminate | reflexivity].
Qed.

Lemma step_question_line (st : parser) (raw : str) :
  is_question_line raw = true ->
  step st raw = on_question_marker st (strip raw).
Proof.
  intros H. unfold step. rewrite (question_line_truthy raw H).
  unfold is_question_line in H. now rewrite H.
Qed.

(** The loop only ever appends to [qa_pairs]. *)
Lemma append_pair_grows (st : parser) :
  exists more, append_pair st = qa_pairs st ++ more.
Proof.
  unfold append_pair. destruct (current_question st).
  - eexists. reflexivity.
  - exists []. now rewrite app_nil_r.
Qed.

Lemma step_grows (st : parser) (raw : str) :
  exists more, qa_pairs (step st raw) = qa_pairs st ++ more.
Proof.
  assert (Hsame : exists more, qa_pairs st = qa_pairs st ++ more)
    by (exists []; now rewrite app_nil_r).
  pose proof (append_pair_grows st) as Happ.
  rewrite step_run_branch.
  destruct (branch_of st raw); simpl; try assumption.
  - unfold on_question_marker.
    destruct (truthy_opt (current_question st));
      destruct (inline_text (strip raw)); assumption.
  - unfold on_answer_marker.
    destruct (truthy_opt (current_question st) && truthy (current_answer st));
      destruct (inline_text (strip raw)); assumption.
  - unfold on_continuation.
    destruct (truthy (current_answer st)); [assumption|].
    destruct (truthy_opt (current_question st)); assumption.
Qed.

Lemma parse_loop_grows (lines : list str) :
  forall st, exists more,
    qa_pairs (parse_loop lines st) = qa_pairs st ++ more.
Proof.
  induction lines as [|raw lines IH]; intros st.
  - exists []. simpl. now rewrite app_nil_r.
  - rewrite parse_loop_cons.
    destruct (IH (step st raw)) as [m1 H1].
    destruct (step_grows st raw) as [m2 H2].
    exists (m2 ++ m1). now rewrite H1, H2, app_assoc.
Qed.

Lemma parse_finish_grows (st : parser) :
  exists more, parse_finish st = qa_pairs st ++ more.
Proof.
  unfold parse_finish. destruct (truthy_opt (current_question st)).
  - apply append_pair_grows.
  - exists []. now rewrite app_nil_r.
Qed.

Lemma result_grows (lines : list str) (st : parser) :
  exists more, parse_finish (parse_loop lines st) = qa_pairs st ++ more.
Proof.
  destruct (parse_finish_grows (parse_loop lines st)) as [m1 H1].
  destruct (parse_loop_grows lines st) as [m2 H2].
  exists (m2 ++ m1). now rewrite H1, H2, app_assoc.
Qed.

Section OneQuestion.

Variable q : str.
Hypothesis q_truthy : truthy q = true.

Lemma flushed_more (seen : list str) (pairs more : list QAPair) :
  flushed q seen pairs -> flushed q seen (pairs ++ more).
Proof.
  intros (sub & Hsub & Hall). exists sub.
  split; [now apply subsequence_app_r | assumption].
Qed.

Lemma flushed_snoc (seen : list str) (pairs : list QAPair) (a : str)
  (p : QAPair) :
  flushed q seen pairs -> answers_pair q a p ->
  flushed q (seen ++ [a]) (pairs ++ [p]).
Proof.
  intros (sub & Hsub & Hall) Hp. exists (sub ++ [p]). split.
  - now apply subsequence_snoc.
  - apply Forall2_app; [assumption|].
    apply Forall2_cons; [assumption | apply Forall2_nil].
Qed.

Lemma flushed_prefix (seen extra : list str) (pairs : list QAPair) :
  flushed q (seen ++ extra) pairs -> flushed q seen pairs.
Proof.
  intros (sub & Hsub & Hall).
  apply Forall2_app_inv_l in Hall. destruct Hall as (s1 & s2 & H1 & _ & ->).
  exists s1. split; [now apply (subsequence_app_inv pairs s1 s2) | assumption].
Qed.

(** The pending text gives a non-empty [current_answer]. *)
Lemma inline_cont_truthy (a t cont : str) :
  inline_text (strip a) = Some t -> truthy (t ++ cont) = true.
Proof.
  intros H. destruct (inline_text_some _ _ H) as [Ht _].
  destruct t; [discriminate | reflexivity].
Qed.

(** Emitting the pair of the state gives every answer line its pair. *)
Lemma track_append_pair (seen : list str) (st : parser) :
  track q seen st -> flushed q seen (append_pair st).
Proof.
  intros (Hcq & _ & [Hf | (seen' & a & t & cont & -> & Hf & Hin & Hca & _)]);
    unfold append_pair; rewrite Hcq.
  - now apply flushed_more.
  - apply flushed_snoc; [assumption|]. split; [reflexivity|]. simpl.
    unfold text_of. rewrite Hin, Hca.
    destruct (inline_text_some _ _ Hin) as [Ht Htr].
    apply strip_keeps_prefix; [now apply truthy_not_nil | assumption].
Qed.

(** The pairs after the test of line 94. *)
Lemma track_answer_pairs (seen : list str) (st : parser) :
  track q seen st ->
  flushed q seen
    (if truthy_opt (current_question st) && truthy (current_answer st)
     then append_pair st else qa_pairs st).
Proof.
  intros Htr. pose proof (track_append_pair seen st Htr) as Happ.
  destruct Htr
    as (Hcq & _ & [Hf | (seen' & a & t & cont & -> & Hf & Hin & Hca & _)]).
  - destruct (truthy_opt (current_question st) && truthy (current_answer st));
      assumption.
  - rewrite Hcq, Hca. cbn [truthy_opt]. rewrite q_truthy.
    rewrite (inline_cont_truthy a t cont Hin). cbn [andb].
    exact Happ.
Qed.

(** One line that is no question marker: the parser stays under [q]; an
    answer marker with text after its colon is one more answer line. *)
Lemma step_track (seen : list str) (st : parser) (raw : str) :
  is_question_line raw = false ->
  track q seen st ->
  track q (seen ++ filter is_inline_answer [raw]) (step st raw).
Proof.
  intros Hnq Htr. pose proof (track_answer_pairs seen st Htr) as Hans.
  destruct Htr as (Hcq & Heq & Hcase).
  unfold step. cbn [filter]. unfold is_inline_answer. rewrite Hnq.
  unfold is_question_line in Hnq. rewrite Hnq, Heq. cbn [negb andb].
  destruct (truthy (strip raw)) eqn:Hline; cbn [negb].
  2: { (* a blank line *)
    assert (Ha : is_answer_line raw = false).
    { unfold is_answer_line.
      destruct (strip raw); [reflexivity | discriminate Hline]. }
    rewrite Ha. cbn [andb]. rewrite app_nil_r. now repeat split. }
  unfold is_answer_line.
  destruct (startswith_any (strip raw) answer_markers); cbn [andb].
  { (* an answer marker *)
    unfold on_answer_marker.
    destruct (inline_text (strip raw)) as [t|] eqn:Ht.
    - repeat split; cbn [current_question expecting_question qa_pairs
                         current_answer expecting_answer]; try assumption.
      right. exists seen, raw, t, []. rewrite app_nil_r. now repeat split.
    - rewrite app_nil_r.
      repeat split; cbn [current_question expecting_question qa_pairs];
        try assumption.
      now left. }
  rewrite app_nil_r.
  destruct (expecting_answer st) eqn:Hea.
  { (* the answer that was waited for *)
    unfold on_answer_text.
    repeat split; cbn [current_question expecting_question qa_pairs];
      try assumption.
    destruct Hcase as [Hf | (seen' & a & t & cont & _ & _ & _ & _ & Hea')];
      [now left | congruence]. }
  (* a continuation line *)
  unfold on_continuation.
  destruct Hcase as [Hf | (seen' & a & t & cont & -> & Hf & Hin & Hca & _)].
  - destruct (truthy (current_answer st)).
    + repeat split; cbn [current_question expecting_question qa_pairs];
        try assumption.
      now left.
    + rewrite Hcq. cbn [truthy_opt]. rewrite q_truthy.
      repeat split; cbn [current_question expecting_question qa_pairs];
        try assumption.
      now left.
  - rewrite Hca, (inline_cont_truthy a t cont Hin).
    repeat split; cbn [current_question expecting_question qa_pairs
                       current_answer expecting_answer]; try assumption.
    right. exists seen', a, t, (cont ++ space ++ strip raw).
    rewrite <- app_assoc. now repeat split.
Qed.

Lemma parse_loop_track (mid : list str) :
  Forall (fun raw => is_question_line raw = false) mid ->
  forall seen st,
    track q seen st ->
    track q (seen ++ filter is_inline_answer mid) (parse_loop mid st).
Proof.
  induction 1 as [|raw mid Hraw _ IH]; intros seen st Htr.
  - simpl. now rewrite app_nil_r.
  - rewrite parse_loop_cons.
    change (raw :: mid) with ([raw] ++ mid).
    rewrite filter_app, app_assoc. apply IH. now apply step_track.
Qed.

(** Whatever follows, every answer line read under [q] has its pair in
    the result. *)
Lemma track_result (lines : list str) :
  forall seen st,
    track q seen st ->
    exists extra,
      flushed q (seen ++ extra) (parse_finish (parse_loop lines st)).
Proof.
  induction lines as [|raw lines IH]; intros seen st Htr.
  - exists []. rewrite app_nil_r. unfold parse_loop, parse_finish. simpl.
    pose proof (track_append_pair seen st Htr) as Happ.
    destruct Htr as (Hcq & _). rewrite Hcq. cbn [truthy_opt].
    now rewrite q_truthy.
  - rewrite parse_loop_cons.
    destruct (is_question_line raw) eqn:Hraw.
    + exists []. rewrite app_nil_r.
      destruct (result_grows lines (step st raw)) as [more ->].
      apply flushed_more. rewrite (step_question_line st raw Hraw).
      pose proof (track_append_pair seen st Htr) as Happ.
      destruct Htr as (Hcq & _).
      unfold on_question_marker. rewrite Hcq. cbn [truthy_opt].
      rewrite q_truthy.
      destruct (inline_text (strip raw)); assumption.
    + destruct (IH _ _ (step_track seen st raw Hraw Htr)) as [extra He].
      exists (filter is_inline_answer [raw] ++ extra).
      now rewrite app_assoc.
Qed.

End OneQuestion.

(** C10: a question-marker line with text [q] after its colon, followed
    by lines of which none starts with a question marker and two or more
    are answer markers with text after their colon: the result holds, in
    order, one pair for each of these answer lines; the question of each
    of these pairs is [q] and its answer starts with the text after the
    colon of its answer line.  The answer marker emits the pair of the
    answer before it and leaves [current_question] as it is. *)
Theorem answers_share_question (text : str) (before mid after : list str)
  (qline q : str) :
  split nl text = before ++ qline :: mid ++ after ->
  is_question_line qline = true ->
  inline_text (strip qline) = Some q ->
  Forall (fun raw => is_question_line raw = false) mid ->
  (2 <= length (filter is_inline_answer mid))%nat ->
  exists sub,
    subsequence sub (parse_qa_response text)
    /\ Forall2 (answers_pair q) (filter is_inline_answer mid) sub.
Proof.
  intros Hsplit Hql Hq Hmid _.
  destruct (inline_text_some _ _ Hq) as [Hqt _].
  unfold parse_qa_response, parse_lines. rewrite Hsplit.
  rewrite parse_loop_app, parse_loop_cons, parse_loop_app.
  set (st0 := parse_loop before initial).
  assert (Htr : track q [] (step st0 qline)).
  { rewrite (step_question_line st0 qline Hql).
    unfold on_question_marker. rewrite Hq.
    repeat split. left. exists [].
    split; [apply subsequence_nil_l | constructor]. }
  pose proof (parse_loop_track q Hqt mid Hmid _ _ Htr) as Hmid'.
  destruct (track_result q Hqt after _ _ Hmid') as [extra He].
  apply flushed_prefix in He. exact He.
Qed.

Lemma answers_share_question_witness :
  split nl one_question_two_answers
  = [] ++ py "Question 1: Q" :: two_answers ++ []
  /\ is_question_line (py "Question 1: Q") = true
  /\ inline_text (strip (py "Question 1: Q")) = Some (py "Q")
  /\ Forall (fun raw => is_question_line raw = false) two_answers
  /\ (2 <= length (filter is_inline_answer two_answers))%nat
  /\ exists sub,
       subsequence sub (parse_qa_response one_question_two_answers)
       /\ Forall2 (answers_pair (py "Q"))
                  (filter is_inline_answer two_answers) sub.
Proof.
  assert (H1 : split nl one_question_two_answers
               = [] ++ py "Question 1: Q" :: two_answers ++ [])
    by reflexivity.
  assert (H2 : is_question_line (py "Question 1: Q") = true) by reflexivity.
  assert (H3 : inline_text (strip (py "Question 1: Q")) = Some (py "Q"))
    by reflexivity.
  assert (H4 : Forall (fun raw => is_question_line raw = false) two_answers)
    by (repeat constructor).
  assert (H5 : (2 <= length (filter is_inline_answer two_answers))%nat)
    by (simpl; lia).
  repeat (split; [assumption|]).
  exact (answers_share_question _ _ _ _ _ _ H1 H2 H3 H4 H5).
Defined.

(** The two pairs of that response. *)
Example two_answers_two_pairs :
  parse_qa_response one_question_two_answers
  = [Pair (py "Q") (py "first"); Pair (py "Q") (py "second")].
Proof. reflexivity. Qed.

(** * Further properties of the chunker *)

Lemma chunk_finish_loop (max_length : Z) (ps : list str) :
  forall cs cur,
    chunk_finish (chunk_loop max_length ps (Chunker cs cur))
    = cs ++ chunks_from max_length cur ps.
Proof.
  induction ps as [|p ps IH]; intros cs cur.
  - unfold chunk_finish, chunk_loop. simpl.
    destruct (truthy cur); [reflexivity | now rewrite app_nil_r].
  - rewrite chunk_loop_cons. unfold chunk_step. simpl.
    destruct (len cur + len p <=? max_length)%Z.
    + apply IH.
    + rewrite IH. now rewrite <- app_assoc.
Qed.

(** [chunk_text] is [chunks_from] on an empty buffer. *)
Lemma chunk_text_chunks_from (text : str) (max_length : Z) :
  chunk_text text max_length = chunks_from max_length [] (split nl text).
Proof. unfold chunk_text. apply chunk_finish_loop. Qed.

Lemma group_chunk_snoc (g : list str) (p : str) :
  group_chunk (g ++ [p]) = group_chunk g ++ p ++ separator.
Proof.
  unfold group_chunk. rewrite map_app, concat_app. simpl.
  now rewrite app_nil_r.
Qed.

Lemma truthy_group_chunk (p : str) (g : list str) :
  truthy (group_chunk (p :: g)) = true.
Proof. destruct p; reflexivity. Qed.

Lemma chunks_from_groups (max_length : Z) (ps : list str) :
  forall g,
    chunks_from max_length (group_chunk g) ps
    = map group_chunk (groups_from max_length g ps).
Proof.
  induction ps as [|p ps IH]; intros g; simpl.
  - destruct g as [|q g]; [reflexivity|].
    now rewrite truthy_group_chunk.
  - destruct (len (group_chunk g) + len p <=? max_length)%Z.
    + rewrite <- IH. now rewrite group_chunk_snoc.
    + simpl. f_equal. rewrite <- IH. f_equal.
      unfold group_chunk. simpl. now rewrite app_nil_r.
Qed.

Lemma groups_from_concat (max_length : Z) (ps : list str) :
  forall g, concat (groups_from max_length g ps) = g ++ ps.
Proof.
  induction ps as [|p ps IH]; intros g; simpl.
  - destruct g; simpl; now rewrite ?app_nil_r.
  - destruct (len (group_chunk g) + len p <=? max_length)%Z.
    + rewrite IH. now rewrite <- app_assoc.
    + simpl. now rewrite IH.
Qed.

(** A group that is not empty keeps its first paragraph. *)
Lemma groups_from_head (max_length : Z) (ps : list str) :
  forall p g, exists g' rest,
    groups_from max_length (p :: g) ps = (p :: g') :: rest.
Proof.
  induction ps as [|q ps IH]; intros p g; simpl.
  - now exists g, [].
  - destruct (len (group_chunk (p :: g)) + len q <=? max_length)%Z.
    + apply (IH p (g ++ [q])).
    + eexists. eexists. reflexivity.
Qed.

Lemma groups_from_closed (max_length : Z) (ps : list str) :
  forall g, closed_when_full max_length (groups_from max_length g ps).
Proof.
  induction ps as [|q ps IH]; intros g; simpl.
  - destruct g; simpl; auto.
  - destruct (Z.leb_spec (len (group_chunk g) + len q) max_length)
      as [Hle|Hgt].
    + apply IH.
    + destruct (groups_from_head max_length ps q []) as (g' & rest & E).
      cbn [closed_when_full]. rewrite E. split; [exact Hgt|].
      rewrite <- E. apply IH.
Qed.

(** X2: Chunks are runs of whole paragraphs, filled as far as they go: the
    paragraphs of the text can be cut into consecutive groups so that
    each chunk is the paragraphs of one group, each followed by the double
    newline; no paragraph is cut or moved, and a group ends only where the
    next paragraph would have made the buffer longer than [max_length]. *)
Theorem chunk_text_groups (text : str) (max_length : Z) :
  exists groups,
    concat groups = split nl text
    /\ chunk_text text max_length = map group_chunk groups
    /\ closed_when_full max_length groups.
Proof.
  exists (groups_from max_length [] (split nl text)). split; [|split].
  - apply groups_from_concat.
  - rewrite chunk_text_chunks_from. apply (chunks_from_groups max_length _ []).
  - apply groups_from_closed.
Qed.

Lemma chunks_from_truthy (max_length : Z) (ps : list str) :
  forall cur,
    truthy cur = true ->
    chunks_from max_length cur ps <> []
    /\ Forall (fun c => c <> []) (chunks_from max_length cur ps).
Proof.
  induction ps as [|p ps IH]; intros cur Hcur; simpl.
  - rewrite Hcur. split; [discriminate|].
    constructor; [now apply truthy_not_nil | constructor].
  - destruct (len cur + len p <=? max_length)%Z.
    + apply IH. destruct cur; [discriminate | reflexivity].
    + split; [discriminate|]. constructor; [now apply truthy_not_nil|].
      apply IH. apply (truthy_pad p).
Qed.

(** X3: The empty chunk: [chunk_text] returns at least one chunk; the first
    chunk is empty exactly when the first paragraph is longer than
    [max_length], and no later chunk is empty. *)
Theorem chunk_text_empty_chunk (text : str) (max_length : Z) :
  exists first others,
    chunk_text text max_length = first :: others
    /\ (first = [] <-> (max_length < len (hd [] (split nl text)))%Z)
    /\ Forall (fun c => c <> []) others.
Proof.
  rewrite chunk_text_chunks_from.
  pose proof (split_not_nil nl text) as Hne.
  destruct (split nl text) as [|p ps]; [congruence|]. cbn [hd chunks_from].
  change (len []) with 0%Z.
  destruct (Z.leb_spec (0 + len p) max_length) as [Hle|Hgt].
  - destruct (chunks_from_truthy max_length ps ([] ++ p ++ separator))
      as [Hnn Hall]; [apply (truthy_pad p)|].
    destruct (chunks_from max_length ([] ++ p ++ separator) ps)
      as [|c cs]; [congruence|].
    exists c, cs. inversion Hall; subst. split; [reflexivity|].
    split; [|assumption]. split; [congruence | lia].
  - exists [], (chunks_from max_length (p ++ separator) ps).
    split; [reflexivity|]. split; [split; [lia | reflexivity]|].
    apply chunks_from_truthy. apply (truthy_pad p).
Qed.

Lemma chunks_from_fits (max_length : Z) (ps : list str) :
  forall cur,
    (len cur + len (group_chunk ps) <= max_length + 2)%Z ->
    ps <> [] ->
    chunks_from max_length cur ps = [cur ++ group_chunk ps].
Proof.
  induction ps as [|p ps IH]; intros cur Hfit Hne; [congruence|].
  unfold group_chunk in Hfit. simpl in Hfit. fold (group_chunk ps) in Hfit.
  rewrite len_app, len_pad in Hfit.
  pose proof (len_nonneg (group_chunk ps)) as Hps.
  cbn [chunks_from].
  destruct (Z.leb_spec (len cur + len p) max_length) as [_|Hgt]; [|lia].
  destruct ps as [|q ps].
  - simpl. unfold group_chunk. simpl. rewrite app_nil_r.
    now destruct cur, p.
  - rewrite IH; [|rewrite !len_app; change (len separator) with 2%Z; lia
                 |discriminate].
    f_equal. unfold group_chunk. cbn [map concat]. unfold pad.
    now rewrite <- !app_assoc.
Qed.

Lemma chunks_from_overflow (max_length : Z) (ps : list str) :
  forall cur,
    (max_length + 2 < len cur + len (group_chunk ps))%Z ->
    truthy cur = true \/ cur = [] ->
    ps <> [] ->
    (2 <= length (chunks_from max_length cur ps))%nat.
Proof.
  induction ps as [|p ps IH]; intros cur Hover Hcur Hne; [congruence|].
  unfold group_chunk in Hover. simpl in Hover. fold (group_chunk ps) in Hover.
  rewrite len_app, len_pad in Hover.
  cbn [chunks_from].
  destruct (Z.leb_spec (len cur + len p) max_length) as [Hle|Hgt].
  - destruct ps as [|q ps].
    + unfold group_chunk in Hover. simpl in Hover.
      change (len []) with 0%Z in Hover. lia.
    + apply IH; [|left; now destruct cur, p | discriminate].
      rewrite !len_app. change (len separator) with 2%Z. lia.
  - destruct (chunks_from_truthy max_length ps (p ++ separator)
                (truthy_pad p)) as [Hnn _].
    destruct (chunks_from max_length (p ++ separator) ps);
      [congruence | simpl; lia].
Qed.

(** X4: A text that fits stays whole, and only such a text: when the
    paragraphs with their separators take at most [max_length + 2]
    characters, the result is that one chunk; otherwise there are at least
    two chunks. *)
Theorem chunk_text_single (text : str) (max_length : Z) :
  ((len (group_chunk (split nl text)) <= max_length + 2)%Z ->
   chunk_text text max_length = [group_chunk (split nl text)])
  /\ ((max_length + 2 < len (group_chunk (split nl text)))%Z ->
      (2 <= length (chunk_text text max_length))%nat).
Proof.
  rewrite chunk_text_chunks_from.
  pose proof (split_not_nil nl text) as Hne. split; intros H.
  - now apply (chunks_from_fits max_length (split nl text) []).
  - apply chunks_from_overflow; auto.
Qed.

Lemma chunk_text_single_witness :
  (len (group_chunk (split nl (py "ab" ++ [nl] ++ py "cd"))) <= 6 + 2)%Z
  /\ chunk_text (py "ab" ++ [nl] ++ py "cd") 6
     = [group_chunk (split nl (py "ab" ++ [nl] ++ py "cd"))].
Proof.
  assert (H : (len (group_chunk (split nl (py "ab" ++ [nl] ++ py "cd")))
               <= 6 + 2)%Z) by (vm_compute; discriminate).
  split; [exact H | exact (proj1 (chunk_text_single _ 6) H)].
Defined.

(** * Further properties of the parser *)

(** [strip] leaves a trimmed string as it is. *)
Lemma strip_id (s : str) : trimmed s -> strip s = s.
Proof.
  intros Htr. unfold strip, rstrip.
  assert (Hl : lstrip s = s).
  { destruct s as [|c s]; [reflexivity|]. simpl.
    now rewrite (Htr c (or_introl eq_refl)). }
  rewrite Hl.
  destruct (rev s) as [|c r] eqn:Hr.
  - apply (f_equal (@rev char)) in Hr. rewrite rev_involutive in Hr.
    now rewrite Hr.
  - simpl. rewrite (Htr c); [|right; now rewrite Hr].
    rewrite <- Hr. apply rev_involutive.
Qed.

Lemma strip_strip (s : str) : strip (strip s) = strip s.
Proof. apply strip_id, strip_trimmed. Qed.

(** The loop body sees a line only through [line.strip()]. *)
Lemma step_strip (st : parser) (raw : str) : step st (strip raw) = step st raw.
Proof. unfold step. now rewrite strip_strip. Qed.

Lemma step_blank (st : parser) (raw : str) :
  truthy (strip raw) = false -> step st raw = st.
Proof. intros H. unfold step. now rewrite H. Qed.

Lemma parse_loop_significant (lines : list str) :
  forall st,
    parse_loop (filter truthy (map strip lines)) st = parse_loop lines st.
Proof.
  induction lines as [|raw lines IH]; intros st; [reflexivity|].
  rewrite parse_loop_cons. cbn [map filter].
  destruct (truthy (strip raw)) eqn:Hraw.
  - now rewrite parse_loop_cons, step_strip, IH.
  - now rewrite IH, (step_blank st raw Hraw).
Qed.

(** X5: White space around a line and blank lines make no difference: the
    result is that of the trimmed, non-blank lines, so two responses with
    the same such lines give the same pairs. *)
Theorem parse_significant_lines (text text' : str) :
  parse_qa_response text = parse_lines (significant_lines text)
  /\ (significant_lines text = significant_lines text' ->
      parse_qa_response text = parse_qa_response text').
Proof.
  assert (H : forall t, parse_qa_response t
                        = parse_lines (significant_lines t)).
  { intros t. unfold parse_qa_response, parse_lines, significant_lines.
    now rewrite parse_loop_significant. }
  split; [apply H|]. intros E. now rewrite (H text), (H text'), E.
Qed.

Lemma parse_significant_lines_witness :
  significant_lines (py "  Question 1: Q " ++ [nl; nl] ++ py "Answer 1: A")
  = significant_lines (py "Question 1: Q" ++ [nl] ++ py "  Answer 1: A  ")
  /\ parse_qa_response
       (py "  Question 1: Q " ++ [nl; nl] ++ py "Answer 1: A")
     = parse_qa_response
         (py "Question 1: Q" ++ [nl] ++ py "  Answer 1: A  ").
Proof.
  assert (H : significant_lines
                (py "  Question 1: Q " ++ [nl; nl] ++ py "Answer 1: A")
              = significant_lines
                  (py "Question 1: Q" ++ [nl] ++ py "  Answer 1: A  "))
    by reflexivity.
  split; [exact H | exact (proj2 (parse_significant_lines _ _) H)].
Defined.

Section Characters.

Variables P Q : char -> Prop.
Hypothesis P_Q : forall c, P c -> Q c.
Hypothesis Q_space : Q 32%N.

Lemma lstrip_Forall (R : char -> Prop) (s : str) :
  Forall R s -> Forall R (lstrip s).
Proof.
  induction 1 as [|c s Hc Hs IH]; simpl; [constructor|].
  destruct (is_space c); [exact IH | now constructor].
Qed.

Lemma strip_Forall (R : char -> Prop) (s : str) :
  Forall R s -> Forall R (strip s).
Proof.
  intros H. unfold strip, rstrip.
  apply Forall_rev, lstrip_Forall, Forall_rev, lstrip_Forall, H.
Qed.

Lemma split_Forall (R : char -> Prop) (sep : char) (s : str) :
  Forall R s -> Forall (Forall R) (split sep s).
Proof.
  induction 1 as [|c s Hc Hs IH]; simpl; [repeat constructor|].
  destruct (N.eqb c sep); [constructor; [constructor | exact IH]|].
  destruct (split sep s) as [|p ps].
  - repeat constructor. exact Hc.
  - inversion IH; subst. constructor; [now constructor | assumption].
Qed.

Lemma split1_Forall (R : char -> Prop) (sep : char) (s : str) :
  Forall R s -> Forall (Forall R) (split1 sep s).
Proof.
  induction 1 as [|c s Hc Hs IH]; simpl; [repeat constructor|].
  destruct (N.eqb c sep); [repeat constructor; exact Hs|].
  destruct (split1 sep s) as [|p ps].
  - repeat constructor. exact Hc.
  - inversion IH; subst. constructor; [now constructor | assumption].
Qed.

Lemma inline_text_Forall (R : char -> Prop) (line t : str) :
  Forall R line -> inline_text line = Some t -> Forall R t.
Proof.
  intros Hline. unfold inline_text.
  destruct ((1 <? length (split1 colon line))%nat
            && truthy (strip (nth 1 (split1 colon line) []))); [|discriminate].
  intros [= <-]. apply strip_Forall.
  pose proof (split1_Forall R colon line Hline) as Hparts.
  rewrite Forall_forall in Hparts.
  destruct (nth_in_or_default 1 (split1 colon line) []) as [Hin | ->];
    [now apply Hparts | constructor].
Qed.

Lemma append_pair_chars (st : parser) :
  chars_inv P Q st ->
  Forall (fun p => Forall P (question p) /\ Forall Q (answer p))
         (append_pair st).
Proof.
  intros (Hp & Hq & Ha). unfold append_pair.
  destruct (current_question st) as [q|]; [|exact Hp].
  apply Forall_app. split; [exact Hp|]. constructor; [|constructor].
  split; simpl; [now apply Hq | now apply strip_Forall].
Qed.

Lemma step_chars (st : parser) (raw : str) :
  Forall P raw -> chars_inv P Q st -> chars_inv P Q (step st raw).
Proof.
  intros Hraw Hinv. pose proof (append_pair_chars st Hinv) as Happ.
  pose proof (strip_Forall P raw Hraw) as HlineP.
  assert (HlineQ : Forall Q (strip raw))
    by (eapply Forall_impl; [apply P_Q | exact HlineP]).
  destruct Hinv as (Hp & Hq & Ha).
  rewrite step_run_branch. destruct (branch_of st raw); simpl.
  - now repeat split.
  - unfold on_question_marker.
    destruct (inline_text (strip raw)) as [t|] eqn:Ht;
      destruct (truthy_opt (current_question st));
      repeat split; simpl; try assumption; try constructor;
      try discriminate;
      intros q [= <-]; now apply (inline_text_Forall P (strip raw)).
  - repeat split; simpl; try assumption. now intros q [= <-].
  - unfold on_answer_marker.
    destruct (inline_text (strip raw)) as [t|] eqn:Ht;
      destruct (truthy_opt (current_question st)
                && truthy (current_answer st));
      repeat split; simpl; try assumption; try constructor;
      now apply (inline_text_Forall Q (strip raw)).
  - now repeat split.
  - unfold on_continuation.
    destruct (truthy (current_answer st)).
    + repeat split; simpl; try assumption.
      apply Forall_app. split; [assumption|].
      constructor; assumption.
    + destruct (truthy_opt (current_question st)); now repeat split.
Qed.

Lemma parse_loop_chars (lines : list str) :
  Forall (Forall P) lines ->
  forall st, chars_inv P Q st -> chars_inv P Q (parse_loop lines st).
Proof.
  induction 1 as [|raw lines Hraw _ IH]; intros st Hst; [exact Hst|].
  rewrite parse_loop_cons. apply IH. now apply step_chars.
Qed.

Lemma parse_chars (text : str) :
  Forall P text ->
  Forall (fun p => Forall P (question p) /\ Forall Q (answer p))
         (parse_qa_response text).
Proof.
  intros Htext. unfold parse_qa_response, parse_lines.
  assert (Hinv : chars_inv P Q (parse_loop (split nl text) initial)).
  { apply parse_loop_chars; [now apply split_Forall|].
    repeat split; simpl; try constructor. discriminate. }
  unfold parse_finish. destruct (truthy_opt _).
  - now apply append_pair_chars.
  - apply Hinv.
Qed.

End Characters.

(** X6: The parser only copies: every character of a question it returns is
    a character of the response, and every character of an answer is a
    character of the response or the space that joins two lines. *)
Theorem parse_copies_characters (text : str) (p : QAPair) (c : char) :
  In p (parse_qa_response text) ->
  (In c (question p) -> In c text)
  /\ (In c (answer p) -> In c text \/ c = 32%N).
Proof.
  intros Hp.
  pose proof (parse_chars (fun c => In c text)
                (fun c => In c text \/ c = 32%N)
                (fun c H => or_introl H) (or_intror eq_refl) text) as H.
  rewrite !Forall_forall in H. destruct (H (fun c Hc => Hc) p Hp) as [Hq Ha].
  rewrite Forall_forall in Hq, Ha. split; [apply Hq | apply Ha].
Qed.

Lemma parse_copies_characters_witness :
  In (Pair (py "Q") (py "a b"))
     (parse_qa_response (py "Question: Q" ++ [nl] ++ py "a" ++ [nl] ++ py "b"))
  /\ ((In 81%N (question (Pair (py "Q") (py "a b"))) ->
       In 81%N (py "Question: Q" ++ [nl] ++ py "a" ++ [nl] ++ py "b"))
      /\ (In 81%N (answer (Pair (py "Q") (py "a b"))) ->
          In 81%N (py "Question: Q" ++ [nl] ++ py "a" ++ [nl] ++ py "b")
          \/ 81%N = 32%N)).
Proof.
  assert (H : In (Pair (py "Q") (py "a b"))
                (parse_qa_response
                   (py "Question: Q" ++ [nl] ++ py "a" ++ [nl] ++ py "b")))
    by (left; reflexivity).
  split; [exact H | exact (parse_copies_characters _ _ 81%N H)].
Defined.

Lemma remove_char_spec (c : char) (s : str) :
  Forall (fun d => d <> c) (remove_char c s).
Proof.
  unfold remove_char. apply Forall_forall. intros d Hd.
  apply filter_In in Hd. destruct Hd as [_ Hd].
  apply negb_true_iff in Hd. now apply N.eqb_neq.
Qed.

(** X7: No asterisk reaches the pairs: whatever the response is, no question
    and no answer that [run] takes from it contains a ['*']. *)
Theorem qa_section_no_star (response_text : str) (p : QAPair) :
  In p (qa_section response_text) ->
  ~ In star (question p) /\ ~ In star (answer p).
Proof.
  intros Hp. unfold qa_section in Hp.
  pose proof (parse_chars (fun d => d <> star) (fun d => d <> star)
                (fun c H => H) ltac:(discriminate)
                (remove_char star response_text)
                (remove_char_spec star response_text)) as H.
  rewrite Forall_forall in H. destruct (H p Hp) as [Hq Ha].
  rewrite Forall_forall in Hq, Ha.
  split; intros Hin; [now apply (Hq star) | now apply (Ha star)].
Qed.

Lemma qa_section_no_star_witness :
  In (Pair (py "Q") (py "A"))
     (qa_section (py "**Question 1:** Q" ++ [nl] ++ py "**Answer 1:** *A*"))
  /\ (~ In star (question (Pair (py "Q") (py "A")))
      /\ ~ In star (answer (Pair (py "Q") (py "A")))).
Proof.
  assert (H : In (Pair (py "Q") (py "A"))
                (qa_section (py "**Question 1:** Q" ++ [nl]
                             ++ py "**Answer 1:** *A*")))
    by (left; reflexivity).
  split; [exact H | exact (qa_section_no_star _ _ H)].
Defined.

(** ** What comes before the first question *)

Lemma step_agree (st st' : parser) (raw : str) :
  agree st st' -> agree (step st raw) (step st' raw).
Proof.
  intros [[Hi Hi'] | Hs].
  - destruct (is_question_line raw) eqn:Hq.
    + right. rewrite !(step_question_line _ raw Hq).
      destruct Hi as (Hp & Hc & He), Hi' as (Hp' & Hc' & He').
      unfold on_question_marker. rewrite Hc, Hc', Hp, Hp'. cbn [truthy_opt].
      destruct (inline_text (strip raw)) as [t|] eqn:Ht.
      * destruct (inline_text_some _ _ Ht) as [Htt _].
        repeat split. right. split; [reflexivity | now left].
      * repeat split. right. split; [reflexivity | now right].
    + left. split; now apply step_idle.
  - right. destruct st as [qa cq ca eq ea], st' as [qa' cq' ca' eq' ea'].
    destruct Hs as (Hqa & Hcq & Hca & Heq & Hea). simpl in *. subst.
    unfold step. cbn [expecting_question expecting_answer].
    destruct (truthy (strip raw)) eqn:Hline; cbn [negb].
    2: { repeat split; assumption. }
    destruct (startswith_any (strip raw) question_markers).
    { unfold on_question_marker. cbn [current_question qa_pairs
                                      expecting_answer].
      destruct (inline_text (strip raw)) as [t|] eqn:Ht.
      - destruct (inline_text_some _ _ Ht) as [Htt _].
        repeat split. simpl. right. split; [reflexivity | now left].
      - repeat split. simpl. right. split; [reflexivity | now right]. }
    destruct eq'.
    { unfold on_question_text. repeat split. simpl.
      destruct Hea as [Hea | [Hca _]]; [now left | right].
      split; [assumption | now left]. }
    destruct (startswith_any (strip raw) answer_markers).
    { unfold on_answer_marker. simpl.
      destruct (inline_text (strip raw)); repeat split; now left. }
    destruct Hea as [-> | [-> [Hcq | Heq]]].
    + repeat split. now left.
    + destruct ea, ea'; unfold on_answer_text, on_continuation; simpl;
        try rewrite Hcq; repeat split; now left.
    + discriminate.
Qed.

Lemma parse_loop_agree (lines : list str) :
  forall st st',
    agree st st' -> agree (parse_loop lines st) (parse_loop lines st').
Proof.
  induction lines as [|raw lines IH]; intros st st' H; [exact H|].
  rewrite !parse_loop_cons. apply IH. now apply step_agree.
Qed.

Lemma parse_finish_agree (st st' : parser) :
  agree st st' -> parse_finish st = parse_finish st'.
Proof.
  unfold parse_finish, append_pair.
  intros [[(Hp & Hc & _) (Hp' & Hc' & _)] | (Hp & Hc & Ha & _)].
  - now rewrite Hc, Hc', Hp, Hp'.
  - now rewrite Hp, Hc, Ha.
Qed.

(** X8: What comes before the first question marker is ignored: when the
    first lines of a response hold no question marker (they may hold
    answer markers), the result is that of the lines after them. *)
Theorem parse_ignores_preamble (text : str) (preamble rest : list str) :
  split nl text = preamble ++ rest ->
  Forall (fun raw => is_question_line raw = false) preamble ->
  parse_qa_response text = parse_lines rest.
Proof.
  intros Hsplit Hpre. unfold parse_qa_response, parse_lines.
  rewrite Hsplit, parse_loop_app.
  apply parse_finish_agree, parse_loop_agree. left. split.
  - apply parse_loop_idle; [assumption | now repeat split].
  - now repeat split.
Qed.

Lemma parse_ignores_preamble_witness :
  split nl (join nl [py "Here are your questions"; py "Answer:";
                     py "Question 1: Q"; py "A"])
  = [py "Here are your questions"; py "Answer:"]
      ++ [py "Question 1: Q"; py "A"]
  /\ Forall (fun raw => is_question_line raw = false)
            [py "Here are your questions"; py "Answer:"]
  /\ parse_qa_response (join nl [py "Here are your questions"; py "Answer:";
                                 py "Question 1: Q"; py "A"])
     = parse_lines [py "Question 1: Q"; py "A"].
Proof.
  assert (H1 : split nl (join nl [py "Here are your questions"; py "Answer:";
                                  py "Question 1: Q"; py "A"])
               = [py "Here are your questions"; py "Answer:"]
                   ++ [py "Question 1: Q"; py "A"]) by reflexivity.
  assert (H2 : Forall (fun raw => is_question_line raw = false)
                      [py "Here are your questions"; py "Answer:"])
    by (repeat constructor).
  split; [exact H1|]. split; [exact H2|].
  exact (parse_ignores_preamble _ _ _ H1 H2).
Defined.

(** ** The number of pairs *)

Lemma append_pair_length (st : parser) :
  truthy_opt (current_question st) = true ->
  length (append_pair st) = S (length (qa_pairs st)).
Proof.
  unfold append_pair. destruct (current_question st); [|discriminate].
  intros _. rewrite length_app. simpl. lia.
Qed.

Lemma step_count (st : parser) (raw : str) (k : nat) :
  (length (qa_pairs st) + pending st <= k)%nat ->
  (length (qa_pairs (step st raw)) + pending (step st raw)
   <= marker_count [raw] + k)%nat.
Proof.
  unfold marker_count, pending. cbn [filter]. unfold step.
  unfold is_question_line, is_answer_line.
  destruct (truthy (strip raw)) eqn:Hline; cbn [negb];
    [|destruct (_ || _); simpl; lia].
  destruct (startswith_any (strip raw) question_markers); cbn [orb length].
  { unfold on_question_marker.
    destruct (truthy_opt (current_question st)) eqn:Hcq; cbn [orb];
      destruct (inline_text (strip raw)) as [t|] eqn:Ht; simpl;
      rewrite ?(append_pair_length st Hcq);
      try rewrite (proj1 (inline_text_some _ _ Ht));
      destruct (expecting_question st); simpl; lia. }
  destruct (expecting_question st) eqn:Heq.
  { rewrite orb_true_r. unfold on_question_text. simpl. rewrite Hline.
    destruct (startswith_any (strip raw) answer_markers); simpl; lia. }
  rewrite orb_false_r.
  destruct (startswith_any (strip raw) answer_markers); cbn [length].
  { unfold on_answer_marker.
    destruct (truthy_opt (current_question st)) eqn:Hcq; cbn [andb];
      destruct (truthy (current_answer st));
      destruct (inline_text (strip raw)); simpl;
      rewrite ?(append_pair_length st Hcq), ?Hcq, ?Heq; simpl; lia. }
  destruct (expecting_answer st).
  { unfold on_answer_text. simpl. rewrite Heq, orb_false_r. lia. }
  unfold on_continuation.
  destruct (truthy (current_answer st)).
  - simpl. rewrite Heq, orb_false_r. lia.
  - destruct (truthy_opt (current_question st)) eqn:Hcq; simpl;
      rewrite ?Hcq, ?Heq; simpl; lia.
Qed.

Lemma parse_loop_count (lines : list str) :
  forall st k,
    (length (qa_pairs st) + pending st <= k)%nat ->
    (length (qa_pairs (parse_loop lines st)) + pending (parse_loop lines st)
     <= marker_count lines + k)%nat.
Proof.
  induction lines as [|raw lines IH]; intros st k H; [exact H|].
  rewrite parse_loop_cons.
  pose proof (IH _ _ (step_count st raw k H)) as H'.
  change (raw :: lines) with ([raw] ++ lines).
  unfold marker_count in *. rewrite filter_app, length_app. lia.
Qed.

(** X9: At most one pair for each marker: the number of pairs is at most the
    number of lines that start with a question marker or an answer
    marker. *)
Theorem parse_count (text : str) :
  (length (parse_qa_response text) <= marker_count (split nl text))%nat.
Proof.
  unfold parse_qa_response, parse_lines.
  pose proof (parse_loop_count (split nl text) initial 0) as H.
  assert (H0 : (length (qa_pairs initial) + pending initial <= 0)%nat)
    by (unfold pending; simpl; lia).
  specialize (H H0). unfold parse_finish.
  destruct (truthy_opt (current_question (parse_loop (split nl text) initial)))
    eqn:Hcq.
  - rewrite (append_pair_length _ Hcq). unfold pending in H.
    rewrite Hcq in H. simpl in H. lia.
  - lia.
Qed.

(** ** Responses in the expected format *)

Ltac split_andb :=
  repeat match goal with
         | H : _ && _ = true |- _ => apply andb_prop in H; destruct H
         | H : negb _ = true |- _ => apply negb_true_iff in H
         end.

Lemma step_question_text (st : parser) (raw : str) :
  truthy (strip raw) = true ->
  is_question_line raw = false ->
  expecting_question st = true ->
  step st raw = on_question_text st (strip raw).
Proof.
  unfold step, is_question_line. now intros -> -> ->.
Qed.

Lemma step_answer_line (st : parser) (raw : str) :
  is_question_line raw = false ->
  is_answer_line raw = true ->
  expecting_question st = false ->
  step st raw = on_answer_marker st (strip raw).
Proof.
  intros Hq Ha He. unfold step. rewrite (answer_line_truthy raw Ha).
  unfold is_question_line, is_answer_line in *. now rewrite Hq, He, Ha.
Qed.

Lemma step_plain_line (st : parser) (raw : str) :
  plain_line raw = true ->
  expecting_question st = false ->
  step st raw
  = if expecting_answer st then on_answer_text st (strip raw)
    else on_continuation st (strip raw).
Proof.
  unfold plain_line, is_question_line, is_answer_line, step.
  intros H He. split_andb. now rewrite H, H1, H0, He.
Qed.

Lemma truthy_app (a b : str) : truthy a = true -> truthy (a ++ b) = true.
Proof. destruct a; [discriminate | reflexivity]. Qed.

(** Two trimmed texts joined by anything are trimmed. *)
Lemma trimmed_app (a x b : str) :
  truthy a = true -> truthy b = true -> trimmed a -> trimmed b ->
  trimmed (a ++ x ++ b).
Proof.
  intros Ha Hb Hta Htb c [H|H].
  - apply Hta. left. destruct a; [discriminate | exact H].
  - apply Htb. right. rewrite !rev_app_distr in H.
    destruct (rev b) eqn:E; [|exact H].
    apply (f_equal (@rev char)) in E. rewrite rev_involutive in E.
    subst b. discriminate.
Qed.

Lemma continued_trimmed (more : list str) :
  Forall (fun raw => plain_line raw = true) more ->
  forall a, truthy a = true -> trimmed a ->
            truthy (continued a more) = true /\ trimmed (continued a more).
Proof.
  induction 1 as [|raw more Hraw _ IH]; intros a Ha Hta; [now split|].
  unfold continued in *. cbn [fold_left]. unfold plain_line in Hraw.
  split_andb. apply IH.
  - now apply truthy_app.
  - apply trimmed_app; auto. apply strip_trimmed.
Qed.

(** The lines that continue an answer. *)
Lemma parse_loop_more (more : list str) :
  Forall (fun raw => plain_line raw = true) more ->
  forall acc cq ca,
    truthy ca = true ->
    parse_loop more (Parser acc cq ca false false)
    = Parser acc cq (continued ca more) false false.
Proof.
  induction 1 as [|raw more Hraw _ IH]; intros acc cq ca Hca; [reflexivity|].
  rewrite parse_loop_cons, (step_plain_line _ raw Hraw) by reflexivity.
  cbn [expecting_answer]. unfold on_continuation.
  cbn [current_answer qa_pairs current_question expecting_question
       expecting_answer].
  rewrite Hca, IH; [reflexivity | now apply truthy_app].
Qed.

Lemma text_of_inline (raw t : str) :
  inline_text (strip raw) = Some t -> text_of raw = t.
Proof. unfold text_of. now intros ->. Qed.

Lemma has_inline_true (raw : str) :
  has_inline raw = true ->
  exists t, inline_text (strip raw) = Some t
            /\ truthy t = true /\ trimmed t.
Proof.
  unfold has_inline. destruct (inline_text (strip raw)) as [t|] eqn:Ht;
    [|discriminate].
  intros _. exists t. split; [reflexivity | exact (inline_text_some _ _ Ht)].
Qed.

Lemma has_inline_false (raw : str) :
  has_inline raw = false -> inline_text (strip raw) = None.
Proof.
  unfold has_inline. now destruct (inline_text (strip raw)).
Qed.

(** The question of a block, from a state that waits for nothing. *)
Lemma parse_loop_question (q : part) (acc : list QAPair) (cq : option str)
  (ca : str) :
  valid_question q = true ->
  parse_loop (part_lines q) (Parser acc cq ca false false)
  = Parser (if truthy_opt cq
            then append_pair (Parser acc cq ca false false) else acc)
           (Some (part_text q)) [] false false
  /\ truthy (part_text q) = true.
Proof.
  destruct q as [m|m t]; cbn [valid_question part_lines part_text];
    intros H; split_andb.
  - destruct (has_inline_true m H0) as (x & Hx & Htx & _).
    rewrite (text_of_inline m x Hx). split; [|exact Htx].
    unfold parse_loop. cbn [fold_left].
    rewrite (step_question_line _ m H). unfold on_question_marker.
    now rewrite Hx.
  - split; [|assumption].
    unfold parse_loop. cbn [fold_left].
    rewrite (step_question_line _ m H). unfold on_question_marker.
    rewrite (has_inline_false m H2). cbn [current_question qa_pairs
                                          expecting_answer].
    now rewrite (step_question_text _ t H1 H0) by reflexivity.
Qed.

(** The answer of a block, under a question and with no answer yet. *)
Lemma parse_loop_answer (a : part) (acc : list QAPair) (q : str) :
  valid_answer a = true ->
  parse_loop (part_lines a) (Parser acc (Some q) [] false false)
  = Parser acc (Some q) (part_text a) false false
  /\ truthy (part_text a) = true /\ trimmed (part_text a).
Proof.
  destruct a as [m|m t]; cbn [valid_answer part_lines part_text];
    intros H.
  - unfold is_inline_answer in H. split_andb.
    destruct (inline_text (strip m)) as [x|] eqn:Hx; [|discriminate].
    destruct (inline_text_some _ _ Hx) as [Htx Htr].
    rewrite (text_of_inline m x Hx). split; [|now split].
    unfold parse_loop. cbn [fold_left].
    rewrite (step_answer_line _ m H H1) by reflexivity.
    unfold on_answer_marker.
    rewrite Hx. cbn [current_answer truthy andb]. now rewrite andb_false_r.
  - split_andb. pose proof H0 as Hplain. unfold plain_line in H0. split_andb.
    split; [|split; [assumption | apply strip_trimmed]].
    unfold parse_loop. cbn [fold_left].
    rewrite (step_answer_line _ m H H2) by reflexivity.
    unfold on_answer_marker.
    rewrite (has_inline_false m H1). cbn [current_answer truthy andb].
    rewrite andb_false_r. cbn [current_question qa_pairs expecting_question].
    now rewrite (step_plain_line _ t Hplain) by reflexivity.
Qed.

(** One block: the pair that was pending is emitted and the pair of the
    block is pending. *)
Lemma parse_loop_block (b : block) (acc : list QAPair) (cq : option str)
  (ca : str) :
  valid_block b = true ->
  parse_loop (block_lines b) (Parser acc cq ca false false)
  = Parser (if truthy_opt cq
            then append_pair (Parser acc cq ca false false) else acc)
           (Some (question (block_pair b))) (answer (block_pair b))
           false false
  /\ truthy (question (block_pair b)) = true
  /\ trimmed (answer (block_pair b)).
Proof.
  unfold valid_block, block_lines, block_pair. intros H. split_andb.
  rewrite forallb_forall in H0. rewrite <- Forall_forall in H0.
  destruct (parse_loop_question (block_question b) acc cq ca H) as [Eq Hq].
  cbn [question answer]. rewrite !parse_loop_app, Eq.
  destruct (parse_loop_answer (block_answer b)
              (if truthy_opt cq
               then append_pair (Parser acc cq ca false false) else acc)
              (part_text (block_question b)) H1) as (Ea & Ha & Hta).
  rewrite Ea, (parse_loop_more _ H0) by assumption.
  split; [reflexivity|]. split; [assumption|].
  now apply continued_trimmed.
Qed.

Lemma parse_blocks_from (blocks : list block) :
  Forall (fun b => valid_block b = true) blocks ->
  forall acc q a,
    truthy q = true -> trimmed a ->
    parse_finish (parse_loop (flat_map block_lines blocks)
                             (Parser acc (Some q) a false false))
    = acc ++ Pair q a :: map block_pair blocks.
Proof.
  induction 1 as [|b blocks Hb _ IH]; intros acc q a Hq Ha.
  - unfold parse_finish, append_pair. simpl. rewrite Hq.
    now rewrite (strip_id a Ha).
  - cbn [flat_map map]. rewrite parse_loop_app.
    destruct (parse_loop_block b acc (Some q) a Hb) as (E & Hqb & Hab).
    rewrite E. cbn [truthy_opt]. rewrite Hq.
    unfold append_pair. cbn [current_question qa_pairs current_answer].
    rewrite (strip_id a Ha), IH by assumption.
    rewrite <- app_assoc. reflexivity.
Qed.

(** X10: A response in the expected format gives back its pairs: when the
    lines of the response are those of a sequence of blocks, each a
    question (after the colon of a question marker, or on the line after
    a bare one), its answer (likewise, after an answer marker) and lines
    without marker that continue the answer, the result is one pair for
    each block, in order, with the text of the question and the text of
    the answer followed by the continuing lines, each after one space. *)
Theorem parse_blocks (text : str) (blocks : list block) :
  split nl text = flat_map block_lines blocks ->
  forallb valid_block blocks = true ->
  parse_qa_response text = map block_pair blocks.
Proof.
  intros Hsplit Hvalid. unfold parse_qa_response, parse_lines.
  rewrite Hsplit. rewrite forallb_forall in Hvalid.
  rewrite <- Forall_forall in Hvalid.
  destruct Hvalid as [|b blocks Hb Hbs]; [reflexivity|].
  cbn [flat_map map]. rewrite parse_loop_app.
  destruct (parse_loop_block b [] None [] Hb) as (E & Hqb & Hab).
  unfold initial. rewrite E. cbn [truthy_opt].
  rewrite (parse_blocks_from blocks Hbs) by assumption.
  reflexivity.
Qed.

Lemma parse_blocks_witness :
  split nl example_response = flat_map block_lines example_blocks
  /\ forallb valid_block example_blocks = true
  /\ parse_qa_response example_response = map block_pair example_blocks.
Proof.
  assert (H1 : split nl example_response
               = flat_map block_lines example_blocks) by reflexivity.
  assert (H2 : forallb valid_block example_blocks = true) by reflexivity.
  split; [exact H1|]. split; [exact H2|].
  exact (parse_blocks _ _ H1 H2).
Defined.

(** * Properties of the worker *)

Lemma no_completion_ret {A : Type} (a : A) : no_completion (ret a).
Proof. intros m. exists []. simpl. now rewrite app_nil_r. Qed.

Lemma no_completion_bind {A B : Type} (c : action A) (k : A -> action B) :
  no_completion c -> (forall a, no_completion (k a)) ->
  no_completion (bind c k).
Proof.
  intros Hc Hk m. unfold bind. destruct (Hc m) as (n1 & E1 & F1).
  destruct (c m) as [[a|msg] m']; simpl in *.
  - destruct (Hk a m') as (n2 & E2 & F2). exists (n1 ++ n2).
    rewrite E2, E1, app_assoc, forallb_app, F1, F2. now split.
  - now exists n1.
Qed.

Lemma no_completion_record (e : event) :
  is_complete e = false -> no_completion (record e).
Proof.
  intros He m. exists [e]. simpl. now rewrite He.
Qed.

Lemma no_completion_attempts (w : world) (prompt : str) (left : nat) :
  forall wait_time, no_completion (attempts w prompt left wait_time).
Proof.
  induction left as [|left IH]; intros wait_time; [apply no_completion_ret|].
  intros m. cbn [attempts]. unfold generate_content.
  destruct (service w (calls m)) as [r|msg].
  - exists [GenerateContent prompt]. now split.
  - destruct (contains msg (py "429")).
    + match goal with
      | |- context [bind ?c ?k ?m'] =>
          destruct (no_completion_bind c k) with (m := m')
            as (new & E & F)
      end.
      * now apply no_completion_record.
      * intros _. apply no_completion_bind;
          [now apply no_completion_record | intros _; apply IH].
      * exists (GenerateContent prompt :: new). rewrite E. simpl.
        rewrite <- app_assoc. now split.
    + exists [GenerateContent prompt]. now split.
Qed.

Lemma no_completion_process_chunk (w : world) (total i : nat) (chunk : str) :
  no_completion (process_chunk w total i chunk).
Proof.
  unfold process_chunk.
  apply no_completion_bind; [apply no_completion_attempts | intros _].
  apply no_completion_bind.
  { intros m. exists []. unfold get_response.
    destruct (global_response m); simpl; now rewrite app_nil_r. }
  intros r. apply no_completion_bind.
  { intros m. exists []. simpl. now rewrite app_nil_r. }
  intros t. apply no_completion_bind.
  { intros m. exists []. simpl. now rewrite app_nil_r. }
  intros _. now apply no_completion_record.
Qed.

Lemma no_completion_process_chunks (w : world) (total : nat)
  (chunks : list str) :
  forall i, no_completion (process_chunks w total i chunks).
Proof.
  induction chunks as [|chunk chunks IH]; intros i;
    [apply no_completion_ret|].
  cbn [process_chunks]. apply no_completion_bind.
  - apply no_completion_process_chunk.
  - intros _. apply IH.
Qed.

(** X11: A run always ends with a signal: the last event of a run is
    [processing_complete] or [error_occurred], and no
    [processing_complete] comes before it. *)
Theorem run_ends_with_signal (w : world) (m : machine) :
  exists before last,
    trace (run w m) = trace m ++ before ++ [last]
    /\ is_terminal last = true
    /\ forallb (fun e => negb (is_complete e)) before = true.
Proof.
  unfold run, run_body.
  destruct (truthy_opt (api_key w)); cbn [negb].
  2: { eexists [], _. simpl. split; [reflexivity | now split]. }
  unfold bind at 1. destruct (setup w) as [[]|msg].
  2: { eexists [], _. simpl. split; [reflexivity | now split]. }
  unfold bind at 1. unfold extract_text_from_pdf.
  destruct (pdf w) as [pages|msg].
  - cbn [ret]. destruct (truthy (concat pages)); cbn [negb].
    2: { eexists [], _. simpl. split; [reflexivity | now split]. }
    unfold bind at 1.
    destruct (no_completion_process_chunks w
                (length (chunk_text (concat pages) 4000))
                (chunk_text (concat pages) 4000) 0 m) as (new & E & F).
    destruct (process_chunks _ _ _ _ m) as [[[]|msg] m']; simpl in *.
    + eexists new, _. rewrite E, <- app_assoc. split; [reflexivity|].
      now split.
    + eexists new, _. rewrite E, <- app_assoc. split; [reflexivity|].
      now split.
  - simpl. eexists [_], _. rewrite <- app_assoc.
    split; [reflexivity | now split].
Qed.








Lemma bind_done {A B : Type} (c : action A) (k : A -> action B)
  (m : machine) (a : A) (m' : machine) :
  c m = (Done a, m') -> bind c k m = k a m'.
Proof. unfold bind. now intros ->. Qed.

Lemma attempts_answered (w : world) (prompt : str) (left : nat)
  (wait_time : Z) (m : machine) (r : response) :
  service w (calls m) = Done r ->
  attempts w prompt (S left) wait_time m
  = (Done tt,
     Machine (S (calls m)) (Some r) (self_qa_pairs m)
             (trace m ++ [GenerateContent prompt])).
Proof.
  intros H. cbn [attempts]. unfold generate_content. now rewrite H.
Qed.

Lemma process_chunk_answered (w : world) (total i : nat) (chunk t : str)
  (m : machine) :
  service w (calls m) = Done (Done t) ->
  process_chunk w total i chunk m
  = (Done tt,
     Machine (S (calls m)) (Some (Done t))
             (self_qa_pairs m ++ qa_section t)
             (trace m
              ++ [GenerateContent (make_prompt (language_prompt w) chunk);
                  ProgressUpdate (progress_of i total)])).
Proof.
  intros H. unfold process_chunk, bind.
  rewrite (attempts_answered w _ 2 1 m (Done t) H).
  unfold get_response, extend_qa_pairs, record.
  cbn [global_response calls self_qa_pairs trace].
  now rewrite <- app_assoc.
Qed.

Lemma process_chunks_answered (w : world) (total : nat) (chunks : list str) :
  forall answers i m,
    length answers = length chunks ->
    (forall k t, nth_error answers k = Some t ->
                 service w (calls m + k) = Done (Done t)) ->
    exists r,
      process_chunks w total i chunks m
      = (Done tt,
         Machine (calls m + length chunks) r
                 (self_qa_pairs m ++ flat_map qa_section answers)
                 (trace m
                  ++ answered_events (language_prompt w) total i chunks)).
Proof.
  induction chunks as [|chunk chunks IH]; intros answers i m Hlen Hans.
  - destruct answers; [|discriminate]. exists (global_response m).
    simpl. rewrite Nat.add_0_r, !app_nil_r. now destruct m.
  - destruct answers as [|t answers]; [discriminate|].
    cbn [process_chunks]. unfold bind.
    rewrite (process_chunk_answered w total i chunk t m).
    2: { rewrite <- (Hans 0%nat t eq_refl). f_equal. lia. }
    destruct (IH answers (S i)
                (Machine (S (calls m)) (Some (Done t))
                         (self_qa_pairs m ++ qa_section t)
                         (trace m
                          ++ [GenerateContent
                                (make_prompt (language_prompt w) chunk);
                              ProgressUpdate (progress_of i total)])))
      as [r E].
    + simpl in Hlen. lia.
    + intros k t' Hk. cbn [calls].
      rewrite <- (Hans (S k) t' Hk). f_equal. lia.
    + exists r. rewrite E. cbn [calls self_qa_pairs trace length flat_map
                                 answered_events].
      f_equal. f_equal; [lia | now rewrite <- app_assoc
                         | now rewrite <- app_assoc].
Qed.

(** X13: When every call is answered at once: with an API key, a PDF that
    gives text and a service that answers each call, a run asks once for
    each chunk, in order, reports the progress after each answer, adds
    the pairs of the answers to [self.qa_pairs] in the order of the
    chunks, and ends with [processing_complete] carrying them. *)
Theorem run_all_answered (w : world) (m : machine) (pages answers : list str) :
  truthy_opt (api_key w) = true ->
  setup w = Done tt ->
  pdf w = Done pages ->
  truthy (concat pages) = true ->
  length answers = length (chunk_text (concat pages) 4000) ->
  (forall k t, nth_error answers k = Some t ->
               service w (calls m + k) = Done (Done t)) ->
  self_qa_pairs (run w m) = self_qa_pairs m ++ flat_map qa_section answers
  /\ trace (run w m)
     = trace m
       ++ answered_events (language_prompt w)
            (length (chunk_text (concat pages) 4000)) 0
            (chunk_text (concat pages) 4000)
       ++ [ProcessingComplete
             (self_qa_pairs m ++ flat_map qa_section answers)].
Proof.
  intros Hkey Hsetup Hpdf Htext Hlen Hans.
  destruct (process_chunks_answered w
              (length (chunk_text (concat pages) 4000))
              (chunk_text (concat pages) 4000) answers 0 m Hlen Hans)
    as [r E].
  unfold run, run_body. rewrite Hkey. cbn [negb].
  rewrite (bind_done _ _ m tt m) by now rewrite Hsetup.
  unfold extract_text_from_pdf. rewrite Hpdf.
  rewrite (bind_done _ _ m (concat pages) m) by reflexivity.
  rewrite Htext. cbn [negb].
  rewrite (bind_done _ _ _ _ _ E).
  unfold bind, get_qa_pairs, record. cbn [self_qa_pairs trace].
  split; [reflexivity | now rewrite <- app_assoc].
Qed.

Lemma run_all_answered_witness :
  truthy_opt (api_key answering_world) = true
  /\ setup answering_world = Done tt
  /\ pdf answering_world = Done [py "Some text."; py " More text."]
  /\ truthy (concat [py "Some text."; py " More text."]) = true
  /\ length [example_answer]
     = length (chunk_text (concat [py "Some text."; py " More text."]) 4000)
  /\ (forall k t, nth_error [example_answer] k = Some t ->
                  service answering_world (calls fresh + k) = Done (Done t))
  /\ self_qa_pairs (run answering_world fresh)
     = self_qa_pairs fresh ++ flat_map qa_section [example_answer]
  /\ trace (run answering_world fresh)
     = trace fresh
       ++ answered_events (language_prompt answering_world)
            (length (chunk_text
                       (concat [py "Some text."; py " More text."]) 4000)) 0
            (chunk_text (concat [py "Some text."; py " More text."]) 4000)
       ++ [ProcessingComplete
             (self_qa_pairs fresh ++ flat_map qa_section [example_answer])].
Proof.
  assert (H : forall k t, nth_error [example_answer] k = Some t ->
                          service answering_world (calls fresh + k)
                          = Done (Done t)).
  { intros [|[|k]] t E; [now injection E as <- | discriminate | discriminate]. }
  repeat (split; [reflexivity|]). split; [exact H|].
  exact (run_all_answered answering_world fresh
           [py "Some text."; py " More text."] [example_answer]
           eq_refl eq_refl eq_refl eq_refl eq_refl H).
Defined.

Lemma attempts_refused (w : world) (prompt : str) (left : nat)
  (wait_time : Z) (m : machine) (message : str) :
  service w (calls m) = Raised message ->
  contains message (py "429") = true ->
  attempts w prompt (S left) wait_time m
  = attempts w prompt left (wait_time + 1)
      (Machine (S (calls m)) (global_response m) (self_qa_pairs m)
               (trace m ++ refused_events prompt wait_time)).
Proof.
  intros Hs Hc. cbn [attempts]. unfold generate_content. rewrite Hs, Hc.
  unfold bind, record, refused_events.
  cbn [calls global_response self_qa_pairs trace].
  now rewrite <- !app_assoc.
Qed.

(** X14: When the quota is refused three times: after three attempts that
    fail with [429] in their message the loop gives up without an error
    and [run] goes on with the global [response] as it was.  With a
    response of an earlier chunk, the pairs of that response are added a
    second time and the progress is reported; with no response yet, the
    run stops with a [NameError]. *)
Theorem process_chunk_quota_exhausted (w : world) (total i : nat)
  (chunk : str) (m : machine) (e1 e2 e3 : str) :
  service w (calls m) = Raised e1 ->
  service w (calls m + 1) = Raised e2 ->
  service w (calls m + 2) = Raised e3 ->
  contains e1 (py "429") = true ->
  contains e2 (py "429") = true ->
  contains e3 (py "429") = true ->
  let m3 := after_refusals (make_prompt (language_prompt w) chunk) m in
  process_chunk w total i chunk m
  = match global_response m with
    | Some (Done t) =>
        (Done tt,
         Machine (calls m3) (global_response m3)
                 (self_qa_pairs m ++ qa_section t)
                 (trace m3 ++ [ProgressUpdate (progress_of i total)]))
    | Some (Raised message) => (Raised message, m3)
    | None => (Raised (py "name 'response' is not defined"), m3)
    end.
Proof.
  intros H1 H2 H3 C1 C2 C3 m3. unfold process_chunk, bind.
  rewrite (attempts_refused w _ 2 1 m e1 H1 C1).
  rewrite (attempts_refused w _ 1 (1 + 1) _ e2); [|cbn [calls]|exact C2].
  2: { rewrite <- H2. f_equal. lia. }
  rewrite (attempts_refused w _ 0 (1 + 1 + 1) _ e3); [|cbn [calls]|exact C3].
  2: { rewrite <- H3. f_equal. lia. }
  cbn [attempts ret calls global_response self_qa_pairs trace].
  assert (E : Machine (S (S (S (calls m)))) (global_response m)
                      (self_qa_pairs m)
                      (((trace m
                         ++ refused_events
                              (make_prompt (language_prompt w) chunk) 1)
                        ++ refused_events
                             (make_prompt (language_prompt w) chunk) (1 + 1))
                       ++ refused_events
                            (make_prompt (language_prompt w) chunk)
                            (1 + 1 + 1))
              = m3).
  { unfold m3, after_refusals. f_equal; [lia|].
    now rewrite <- !app_assoc. }
  rewrite E. unfold get_response.
  change (global_response m) with (global_response m3).
  destruct (global_response m3) as [[t|message]|] eqn:G; try reflexivity.
  unfold extend_qa_pairs, record.
  cbn [calls global_response self_qa_pairs trace]. now rewrite G.
Qed.

Lemma process_chunk_quota_exhausted_witness :
  service quota_world (calls (Machine 1 (Some (Done example_answer))
                                      (qa_section example_answer) []))
  = Raised (py "429 Resource has been exhausted")
  /\ service quota_world
       (calls (Machine 1 (Some (Done example_answer))
                       (qa_section example_answer) []) + 1)
     = Raised (py "429 Resource has been exhausted")
  /\ service quota_world
       (calls (Machine 1 (Some (Done example_answer))
                       (qa_section example_answer) []) + 2)
     = Raised (py "429 Resource has been exhausted")
  /\ contains (py "429 Resource has been exhausted") (py "429") = true
  /\ self_qa_pairs
       (snd (process_chunk quota_world 2 1 (py "next chunk")
               (Machine 1 (Some (Done example_answer))
                        (qa_section example_answer) [])))
     = [Pair (py "Q") (py "A"); Pair (py "Q") (py "A")].
Proof.
  repeat (split; [reflexivity|]).
  rewrite (process_chunk_quota_exhausted quota_world 2 1 (py "next chunk")
             (Machine 1 (Some (Done example_answer))
                      (qa_section example_answer) [])
             _ _ _ eq_refl eq_refl eq_refl eq_refl eq_refl eq_refl).
  reflexivity.
Defined.

Lemma progress_checked : forallb progress_ok (seq 1 200) = true.
Proof. vm_compute. reflexivity. Qed.

(** X15: The progress of a run of up to 200 chunks: every value that
    [run] reports is between 0 and 100, the values do not go down from one
    chunk to the next, and the value after the last chunk is 100. *)
Theorem progress_bounds (total i : nat) :
  (1 <= total <= 200)%nat ->
  (i < total)%nat ->
  (0 <= progress_of i total <= 100)%Z
  /\ (progress_of i total <= progress_of (S i) total)%Z
  /\ progress_of (total - 1) total = 100%Z.
Proof.
  intros Htotal Hi. pose proof progress_checked as H.
  rewrite forallb_forall in H.
  assert (Hin : In total (seq 1 200)) by (apply in_seq; lia).
  specialize (H total Hin). unfold progress_ok in H.
  apply andb_prop in H. destruct H as [Hall Hlast].
  rewrite forallb_forall in Hall.
  assert (Hi' : In i (seq 0 total)) by (apply in_seq; lia).
  specialize (Hall i Hi'). cbv zeta in Hall.
  apply andb_prop in Hall. destruct Hall as [Hall H100].
  apply andb_prop in Hall. destruct Hall as [H0 Hnext].
  apply Z.leb_le in H0, Hnext, H100. apply Z.eqb_eq in Hlast.
  repeat split; assumption.
Qed.

Lemma progress_bounds_witness :
  (1 <= 7 <= 200)%nat
  /\ (2 < 7)%nat
  /\ (0 <= progress_of 2 7 <= 100)%Z
  /\ (progress_of 2 7 <= progress_of 3 7)%Z
  /\ progress_of (7 - 1) 7 = 100%Z.
Proof.
  assert (H1 : (1 <= 7 <= 200)%nat) by lia.
  assert (H2 : (2 < 7)%nat) by lia.
  split; [exact H1|]. split; [exact H2|].
  exact (progress_bounds 7 2 H1 H2).
Defined.
